(** * voxBot: the credential resolver of [src/services/credentialFactory.js]

    A shallow embedding of the [CredentialFactory] class: the prioritised
    fallback chain of [setupCredentials], the certificate sub-procedure of
    [tryCreateCertificateCredential], the readiness gate
    ([waitForInitialization], [ensureCredentialAvailable]) and the accessors
    built on it.

    The class is asynchronous JavaScript that mutates [this], calls the Azure
    SDK, the file system and the logger.  It is embedded as programs of a
    small free monad [Prog]: the SDK boundary is a signature of synchronous
    calls ([SyncCall]) and of awaited calls ([AsyncCall], the suspend points
    of the event loop), [this] is read and written through [GetThis] and
    [SetThis], exceptions are [Raise] with [try_catch].  A [World] answers
    the calls as a function of the history, and [exec] runs a program
    against a world, recording every call in a trace and every suspend point
    in [yields]. *)

From Stdlib Require Import ZArith Lia Strings.Ascii Strings.Byte Sorting.Sorted.
From stdpp Require Import base option list strings gmap pretty.

Open Scope string_scope.
Open Scope Z_scope.
Open Scope list_scope.

(** ** JavaScript values *)

(** A field of [this]: never assigned, assigned [null], or an object. *)
Inductive JsVal (A : Type) : Type :=
| Undefined
| Null
| Obj (a : A).
Arguments Undefined {A}.
Arguments Null {A}.
Arguments Obj {A} a.

(** [if (v)] for an object-valued slot. *)
Definition truthy {A : Type} (v : JsVal A) : bool :=
  match v with Obj _ => true | _ => false end.

(** [if (v)] for a boolean-valued slot. *)
Definition truthy_bool (v : JsVal bool) : bool :=
  match v with Obj b => b | _ => false end.

(** [if (s)] for a string: the empty string is falsy. *)
Definition nonempty (s : string) : bool :=
  match s with EmptyString => false | String _ _ => true end.

(** [process.env]: a map from variable names to strings. *)
Abbreviation Env := (gmap string string).

(** [if (process.env.X)]: defined and not empty. *)
Definition env_set (env : Env) (x : string) : bool :=
  match env !! x with Some v => nonempty v | None => false end.

(** [process.env.X === v]. *)
Definition env_is (env : Env) (x v : string) : bool :=
  bool_decide (env !! x = Some v).

Record JsError : Type := mkError { err_name : string; message : string }.

(** [new Error(msg)] and the engine's [TypeError]. *)
Definition Error (msg : string) : JsError := mkError "Error" msg.
Definition TypeError (msg : string) : JsError := mkError "TypeError" msg.

Inductive Res (A : Type) : Type :=
| Ok (a : A)
| Err (e : JsError).
Arguments Ok {A} a.
Arguments Err {A} e.

Definition res_of_error (o : option JsError) : Res unit :=
  match o with Some e => Err e | None => Ok tt end.

(** ** Objects of the SDK *)

(** The third argument of [new ClientCertificateCredential(tenant, client, _)]. *)
Inductive CertArg : Type :=
| CertString (s : option string)   (* certificateInfo.certificate, as fetched *)
| CertBuffer (b : list Byte.byte)  (* Buffer.from(certificate, 'base64') *)
| CertPath (p : string).           (* path of a file *)

Inductive Credential : Type :=
| ManagedIdentityCredential
| ClientCertificateCredential (tenantId clientId : string) (certificate : CertArg)
| ClientSecretCredential (tenantId clientId clientSecret : string)
| DefaultAzureCredential.

Record SecretClient : Type :=
  mkSecretClient { sc_vault : string; sc_credential : Credential }.
Record CertificateClient : Type :=
  mkCertificateClient { cc_vault : string; cc_credential : Credential }.
Record GraphClient : Type :=
  mkGraphClient { gc_credential : Credential; gc_scopes : list string }.

Record AccessToken : Type :=
  mkAccessToken { token : string; expiresOnTimestamp : Z }.
Record KeyVaultSecret : Type := mkSecret { value : option string }.
Record KeyVaultCertificate : Type := mkCertificate { cert_name : string }.

(** The object returned by [getCertificateFromKeyVault]. *)
Record CertificateInfo : Type :=
  mkCertificateInfo { certificate : option string; password : string; format : string }.

(** ** The fields of [this] *)

Record Factory : Type := mkFactory {
  credential : JsVal Credential;
  secretClient : JsVal SecretClient;
  certificateClient : JsVal CertificateClient;
  graphClient : JsVal GraphClient;
  initializationError : JsVal JsError;
  isInitialized : JsVal bool
}.

Definition set_credential (v : JsVal Credential) (f : Factory) : Factory :=
  mkFactory v (secretClient f) (certificateClient f) (graphClient f)
            (initializationError f) (isInitialized f).
Definition set_secretClient (v : JsVal SecretClient) (f : Factory) : Factory :=
  mkFactory (credential f) v (certificateClient f) (graphClient f)
            (initializationError f) (isInitialized f).
Definition set_certificateClient (v : JsVal CertificateClient) (f : Factory) : Factory :=
  mkFactory (credential f) (secretClient f) v (graphClient f)
            (initializationError f) (isInitialized f).
Definition set_graphClient (v : JsVal GraphClient) (f : Factory) : Factory :=
  mkFactory (credential f) (secretClient f) (certificateClient f) v
            (initializationError f) (isInitialized f).
Definition set_initializationError (v : JsVal JsError) (f : Factory) : Factory :=
  mkFactory (credential f) (secretClient f) (certificateClient f) (graphClient f)
            v (isInitialized f).
Definition set_isInitialized (v : JsVal bool) (f : Factory) : Factory :=
  mkFactory (credential f) (secretClient f) (certificateClient f) (graphClient f)
            (initializationError f) v.

(** An object on which no field was ever assigned. *)
Definition blank : Factory :=
  mkFactory Undefined Undefined Undefined Undefined Undefined Undefined.

(** ** The boundary: calls out of the class *)

(** Synchronous calls.  The index is the type of the answer; a call that can
    throw answers a [Res]. *)
Inductive SyncCall : Type -> Type :=
| NewCredential (c : Credential) : SyncCall (Res unit)
| NewSecretClient (vault : string) (c : Credential) : SyncCall (Res unit)
| NewCertificateClient (vault : string) (c : Credential) : SyncCall (Res unit)
| NewAuthProvider (c : Credential) (scopes : list string) : SyncCall (Res unit)
| InitWithMiddleware (c : Credential) (scopes : list string) : SyncCall (Res unit)
| BufferFromBase64 (s : option string) : SyncCall (Res (list Byte.byte))
| OsTmpdir : SyncCall string
| PathJoin (dir file : string) : SyncCall string
| DateNow : SyncCall Z
| MathRandomSuffix : SyncCall string
| WriteFileSync (path : string) (data : list Byte.byte) : SyncCall (Res unit)
| UnlinkSync (path : string) : SyncCall (Res unit)
| ExistsSync (path : string) : SyncCall bool.

(** Awaited calls: each one is a suspend point.  [Tick] is the turn of the
    event loop taken by [await] on the promise of an async method of the
    class itself; [Sleep ms] is [new Promise(r => setTimeout(r, ms))]. *)
Inductive AsyncCall : Type -> Type :=
| GetToken (c : Credential) (scope : string) : AsyncCall (Res (option AccessToken))
| KvGetCertificate (cl : CertificateClient) (name : string) : AsyncCall (Res KeyVaultCertificate)
| KvGetSecret (cl : SecretClient) (name : string) : AsyncCall (Res KeyVaultSecret)
| KvSetSecret (cl : SecretClient) (name val : string) : AsyncCall (Res unit)
| Sleep (ms : Z) : AsyncCall unit
| Tick : AsyncCall unit.

Inductive Level : Type := LInfo | LWarn | LError | LDebug.

(** An entry of the array [credentialAttempts]: [{ type, error }]. *)
Record Attempt : Type := mkAttempt { attempt_type : string; attempt_error : string }.

(** ** Programs *)

Inductive Prog (A : Type) : Type :=
| Ret (a : A)
| Raise (e : JsError)
| OutOfFuel
| Sync {X : Type} (c : SyncCall X) (k : X -> Prog A)
| Await {X : Type} (c : AsyncCall X) (k : X -> Prog A)
| Log (l : Level) (msg : string) (k : Prog A)
| GetThis (k : Factory -> Prog A)
| SetThis (f : Factory -> Factory) (k : Prog A)
| GetAttempts (k : list Attempt -> Prog A)
| SetAttempts (l : list Attempt) (k : Prog A).
Arguments Ret {A} a.
Arguments Raise {A} e.
Arguments OutOfFuel {A}.
Arguments Sync {A X} c k.
Arguments Await {A X} c k.
Arguments Log {A} l msg k.
Arguments GetThis {A} k.
Arguments SetThis {A} f k.
Arguments GetAttempts {A} k.
Arguments SetAttempts {A} l k.

Fixpoint bind {A B : Type} (p : Prog A) (f : A -> Prog B) : Prog B :=
  match p with
  | Ret a => f a
  | Raise e => Raise e
  | OutOfFuel => OutOfFuel
  | Sync c k => Sync c (fun x => bind (k x) f)
  | Await c k => Await c (fun x => bind (k x) f)
  | Log l m k => Log l m (bind k f)
  | GetThis k => GetThis (fun t => bind (k t) f)
  | SetThis g k => SetThis g (bind k f)
  | GetAttempts k => GetAttempts (fun l => bind (k l) f)
  | SetAttempts l k => SetAttempts l (bind k f)
  end.

(** [try { p } catch (e) { h e }]. *)
Fixpoint try_catch {A : Type} (p : Prog A) (h : JsError -> Prog A) : Prog A :=
  match p with
  | Ret a => Ret a
  | Raise e => h e
  | OutOfFuel => OutOfFuel
  | Sync c k => Sync c (fun x => try_catch (k x) h)
  | Await c k => Await c (fun x => try_catch (k x) h)
  | Log l m k => Log l m (try_catch k h)
  | GetThis k => GetThis (fun t => try_catch (k t) h)
  | SetThis g k => SetThis g (try_catch k h)
  | GetAttempts k => GetAttempts (fun l => try_catch (k l) h)
  | SetAttempts l k => SetAttempts l (try_catch k h)
  end.

Declare Scope prog_scope.
Delimit Scope prog_scope with prog.
Bind Scope prog_scope with Prog.
Notation "x <- p ;; q" := (bind p (fun x => q))
  (at level 100, p at next level, q at level 200, right associativity) : prog_scope.
Notation "p ;; q" := (bind p (fun _ => q))
  (at level 100, q at level 200, right associativity) : prog_scope.
Open Scope prog_scope.

(** The outcome of a [try] block whose normal exit is a [return]: the
    handler and the code after the block run outside its protection. *)
Definition attempt {A : Type} (p : Prog A) : Prog (Res A) :=
  try_catch (x <- p ;; Ret (Ok x)) (fun e => Ret (Err e)).

Definition of_res {A : Type} (r : Res A) : Prog A :=
  match r with Ok a => Ret a | Err e => Raise e end.

Definition sync {X : Type} (c : SyncCall (Res X)) : Prog X := Sync c of_res.
Definition sync_total {X : Type} (c : SyncCall X) : Prog X := Sync c Ret.
Definition await {X : Type} (c : AsyncCall (Res X)) : Prog X := Await c of_res.
Definition tick : Prog unit := Await Tick Ret.
Definition sleep (ms : Z) : Prog unit := Await (Sleep ms) Ret.

(** [await this.method(...)] on an async method of the class: the body runs,
    then the caller takes one turn of the event loop before it sees the
    result or the rejection. *)
Definition await_method {A : Type} (p : Prog A) : Prog A :=
  r <- attempt p ;; tick ;; of_res r.

Definition log (l : Level) (msg : string) : Prog unit := Log l msg (Ret tt).
Definition get_this : Prog Factory := GetThis Ret.
Definition set_this (f : Factory -> Factory) : Prog unit := SetThis f (Ret tt).

(** The local array [credentialAttempts] of [setupCredentials]:
    [let credentialAttempts = []], [credentialAttempts.push(a)], and a read. *)
Definition new_attempts : Prog unit := SetAttempts [] (Ret tt).
Definition push_attempt (a : Attempt) : Prog unit :=
  GetAttempts (fun l => SetAttempts (l ++ [a]) (Ret tt)).
Definition get_attempts : Prog (list Attempt) := GetAttempts Ret.

(** ** The world outside the class *)

(** What the run has done so far, oldest first. *)
Inductive Event : Type :=
| ESync {X : Type} (c : SyncCall X) (x : X)
| EAwait {X : Type} (c : AsyncCall X) (x : X)
| ELog (l : Level) (msg : string).

(** The answers of the SDK, of the operating system and of the libraries.
    Every answer that can vary is a function of the history, so that a
    service may fail now and work later.  A constructor or a file operation
    answers [Some e] when it throws [e]. *)
Record World : Type := mkWorld {
  new_credential_error : list Event -> Credential -> option JsError;
  new_secret_client_error : list Event -> string -> Credential -> option JsError;
  new_certificate_client_error : list Event -> string -> Credential -> option JsError;
  new_auth_provider_error : list Event -> Credential -> list string -> option JsError;
  init_with_middleware_error : list Event -> Credential -> list string -> option JsError;
  get_token : list Event -> Credential -> string -> Res (option AccessToken);
  kv_get_certificate : list Event -> CertificateClient -> string -> Res KeyVaultCertificate;
  kv_get_secret : list Event -> SecretClient -> string -> Res KeyVaultSecret;
  kv_set_secret : list Event -> SecretClient -> string -> string -> option JsError;
  buffer_from_base64 : string -> list Byte.byte;
  os_tmpdir : string;
  path_join : string -> string -> string;
  math_random_suffix : list Event -> string;
  write_error : list Event -> string -> option JsError;
  unlink_error : list Event -> string -> option JsError;
  elapsed : list Event -> N
}.

(** The state of a run: the object, the files on disk, the clock in
    milliseconds, the history, the contents of [this] at every suspend point
    so far (what a task scheduled at that point finds), and the array
    [credentialAttempts] of the resolution pass in progress. *)
Record Sys : Type := mkSys {
  this : Factory;
  files : gset string;
  now : Z;
  trace : list Event;
  yields : list Factory;
  credentialAttempts : list Attempt
}.

Definition with_this (f : Factory) (s : Sys) : Sys :=
  mkSys f (files s) (now s) (trace s) (yields s) (credentialAttempts s).
Definition with_attempts (l : list Attempt) (s : Sys) : Sys :=
  mkSys (this s) (files s) (now s) (trace s) (yields s) l.
Definition with_files (fs : gset string) (s : Sys) : Sys :=
  mkSys (this s) fs (now s) (trace s) (yields s) (credentialAttempts s).
Definition with_now (t : Z) (s : Sys) : Sys :=
  mkSys (this s) (files s) t (trace s) (yields s) (credentialAttempts s).
(** The state shown to the other tasks at a suspend point. *)
Definition yielded (s : Sys) : Sys :=
  mkSys (this s) (files s) (now s) (trace s) (yields s ++ [this s]) (credentialAttempts s).
Definition record (e : Event) (s : Sys) : Sys :=
  mkSys (this s) (files s) (now s) (trace s ++ [e]) (yields s) (credentialAttempts s).

(** [Buffer.from(undefined, 'base64')] throws; on a string it never does. *)
Definition buffer_from_error : JsError :=
  TypeError "The first argument must be of type string or an instance of Buffer, ArrayBuffer, or Array or an Array-like Object. Received undefined".

Definition enoent (path : string) : JsError :=
  Error ("ENOENT: no such file or directory, unlink '" +:+ path +:+ "'").

(** [path.join(dir, file)]: the joined and normalised path, which is
    ['.'] when it would be empty. *)
Definition path_joined (w : World) (dir file : string) : string :=
  let p := path_join w dir file in
  if nonempty p then p else ".".

(** A synchronous call: its answer and the files after it.
    [fs.writeFileSync] creates the file unless it throws; [fs.unlinkSync]
    throws on a missing file, may throw on an existing one (which then
    stays), and removes it otherwise. *)
Definition handle_sync (w : World) (s : Sys) {X : Type} (c : SyncCall X)
  : X * gset string :=
  match c in SyncCall X return X * gset string with
  | NewCredential cr => (res_of_error (new_credential_error w (trace s) cr), files s)
  | NewSecretClient v cr => (res_of_error (new_secret_client_error w (trace s) v cr), files s)
  | NewCertificateClient v cr =>
      (res_of_error (new_certificate_client_error w (trace s) v cr), files s)
  | NewAuthProvider cr sc => (res_of_error (new_auth_provider_error w (trace s) cr sc), files s)
  | InitWithMiddleware cr sc =>
      (res_of_error (init_with_middleware_error w (trace s) cr sc), files s)
  | BufferFromBase64 o =>
      (match o with
       | Some b64 => Ok (buffer_from_base64 w b64)
       | None => Err buffer_from_error
       end, files s)
  | OsTmpdir => (os_tmpdir w, files s)
  | PathJoin d f => (path_joined w d f, files s)
  | DateNow => (now s, files s)
  | MathRandomSuffix => (math_random_suffix w (trace s), files s)
  | WriteFileSync p _ =>
      match write_error w (trace s) p with
      | Some e => (Err e, files s)
      | None => (Ok tt, {[p]} ∪ files s)
      end
  | UnlinkSync p =>
      if bool_decide (p ∈ files s) then
        match unlink_error w (trace s) p with
        | Some e => (Err e, files s)
        | None => (Ok tt, files s ∖ {[p]})
        end
      else (Err (enoent p), files s)
  | ExistsSync p => (bool_decide (p ∈ files s), files s)
  end.

(** An awaited call: its answer and the clock when the task resumes.  A
    timer of [ms] milliseconds fires no earlier than [ms] later. *)
Definition handle_async (w : World) (s : Sys) {X : Type} (c : AsyncCall X)
  : X * Z :=
  match c in AsyncCall X return X * Z with
  | GetToken cr sc => (get_token w (trace s) cr sc, now s + Z.of_N (elapsed w (trace s)))
  | KvGetCertificate cl n =>
      (kv_get_certificate w (trace s) cl n, now s + Z.of_N (elapsed w (trace s)))
  | KvGetSecret cl n => (kv_get_secret w (trace s) cl n, now s + Z.of_N (elapsed w (trace s)))
  | KvSetSecret cl n v =>
      (res_of_error (kv_set_secret w (trace s) cl n v), now s + Z.of_N (elapsed w (trace s)))
  | Sleep ms => (tt, now s + Z.max 0 ms + Z.of_N (elapsed w (trace s)))
  | Tick => (tt, now s)
  end.

Definition after_sync {X : Type} (c : SyncCall X) (r : X * gset string) (s : Sys) : Sys :=
  mkSys (this s) (snd r) (now s) (trace s ++ [ESync c (fst r)]) (yields s)
        (credentialAttempts s).

(** The history keeps the calls that leave the class, not the turns. *)
Definition await_trace {X : Type} (c : AsyncCall X) (x : X) (tr : list Event)
  : list Event :=
  match c with
  | Tick => tr
  | _ => tr ++ [EAwait c x]
  end.

Definition after_async {X : Type} (c : AsyncCall X) (r : X * Z) (s : Sys) : Sys :=
  mkSys (this s) (files s) (snd r) (await_trace c (fst r) (trace s)) (yields s)
        (credentialAttempts s).

(** What the other tasks do to [this] while this one is suspended. *)
Definition Interference : Type := Sys -> Factory.

(** No other task writes. *)
Definition alone : Interference := this.

(** At a suspend point the current [this] is what the other tasks see, and
    they may have changed it when the task resumes. *)
Definition suspend (bg : Interference) (s : Sys) : Sys :=
  with_this (bg (yielded s)) (yielded s).

Inductive Outcome (A : Type) : Type :=
| Returned (a : A)
| Thrown (e : JsError)
| Diverged.
Arguments Returned {A} a.
Arguments Thrown {A} e.
Arguments Diverged {A}.

(** A program run to its end, through its suspend points. *)
Fixpoint exec {A : Type} (w : World) (bg : Interference) (p : Prog A) (s : Sys)
  : Outcome A * Sys :=
  match p with
  | Ret a => (Returned a, s)
  | Raise e => (Thrown e, s)
  | OutOfFuel => (Diverged, s)
  | Sync c k =>
      let r := handle_sync w s c in
      exec w bg (k (fst r)) (after_sync c r s)
  | Await c k =>
      let s1 := suspend bg s in
      let r := handle_async w s1 c in
      exec w bg (k (fst r)) (after_async c r s1)
  | Log l m k => exec w bg k (record (ELog l m) s)
  | GetThis k => exec w bg (k (this s)) s
  | SetThis f k => exec w bg k (with_this (f (this s)) s)
  | GetAttempts k => exec w bg (k (credentialAttempts s)) s
  | SetAttempts l k => exec w bg k (with_attempts l s)
  end.

(** A program run until it returns, throws or reaches its first suspend
    point: the synchronous part of a call. *)
Inductive Step (A : Type) : Type :=
| Done (o : Outcome A)
| Suspended {X : Type} (c : AsyncCall X) (k : X -> Prog A).
Arguments Done {A} o.
Arguments Suspended {A X} c k.

Fixpoint run_sync {A : Type} (w : World) (p : Prog A) (s : Sys) : Step A * Sys :=
  match p with
  | Ret a => (Done (Returned a), s)
  | Raise e => (Done (Thrown e), s)
  | OutOfFuel => (Done Diverged, s)
  | Sync c k =>
      let r := handle_sync w s c in
      run_sync w (k (fst r)) (after_sync c r s)
  | Await c k => (Suspended c k, s)
  | Log l m k => run_sync w k (record (ELog l m) s)
  | GetThis k => run_sync w (k (this s)) s
  | SetThis f k => run_sync w k (with_this (f (this s)) s)
  | GetAttempts k => run_sync w (k (credentialAttempts s)) s
  | SetAttempts l k => run_sync w k (with_attempts l s)
  end.


(** ** Strings of the JavaScript library *)

Definition dquote : string := String (ascii_of_nat 34) EmptyString.
Definition backslash : string := String (ascii_of_nat 92) EmptyString.

Definition hex_digit (n : nat) : ascii :=
  ascii_of_nat (if Nat.ltb n 10 then 48 + n else 87 + n).

(** One character inside a JSON string literal, as [JSON.stringify] writes
    it: the quote, the backslash and the control characters are escaped. *)
Definition json_escape_char (a : ascii) : string :=
  let n := nat_of_ascii a in
  if Nat.eqb n 34 then backslash +:+ dquote
  else if Nat.eqb n 92 then backslash +:+ backslash
  else if Nat.eqb n 8 then backslash +:+ "b"
  else if Nat.eqb n 9 then backslash +:+ "t"
  else if Nat.eqb n 10 then backslash +:+ "n"
  else if Nat.eqb n 12 then backslash +:+ "f"
  else if Nat.eqb n 13 then backslash +:+ "r"
  else if Nat.ltb n 32 then
    backslash +:+ "u00" +:+
    String (hex_digit (Nat.div n 16)) (String (hex_digit (Nat.modulo n 16)) EmptyString)
  else String a EmptyString.

Fixpoint json_escape (s : string) : string :=
  match s with
  | EmptyString => EmptyString
  | String a rest => json_escape_char a +:+ json_escape rest
  end.

Definition json_string (s : string) : string := dquote +:+ json_escape s +:+ dquote.

(** [JSON.stringify] of an object with two string fields. *)
Definition json_object2 (k1 v1 k2 v2 : string) : string :=
  "{" +:+ json_string k1 +:+ ":" +:+ json_string v1 +:+ "," +:+
  json_string k2 +:+ ":" +:+ json_string v2 +:+ "}".

Fixpoint join (sep : string) (l : list string) : string :=
  match l with
  | [] => EmptyString
  | [x] => x
  | x :: rest => x +:+ sep +:+ join sep rest
  end.

(** [JSON.stringify] of an array whose elements are already written. *)
Definition json_array (l : list string) : string := "[" +:+ join "," l +:+ "]".

(** [s.split(',')]. *)
Fixpoint split_comma_acc (acc : string) (s : string) : list string :=
  match s with
  | EmptyString => [acc]
  | String a rest =>
      if Nat.eqb (nat_of_ascii a) 44 then acc :: split_comma_acc EmptyString rest
      else split_comma_acc (acc +:+ String a EmptyString) rest
  end.
Definition split_comma (s : string) : list string := split_comma_acc EmptyString s.

(** The value of [process.env.X] when it is truthy. *)
Definition env_get (env : Env) (x : string) : option string :=
  match env !! x with
  | Some v => if nonempty v then Some v else None
  | None => None
  end.

(** ** The methods of [CredentialFactory] *)

(** An entry of [errors] in the certificate sub-procedure: [{ approach, error }]. *)
Record ApproachError : Type := mkApproachError { approach : string; approach_error : string }.

Definition stringify_attempts (l : list Attempt) : string :=
  json_array (map (fun a => json_object2 "type" (attempt_type a) "error" (attempt_error a)) l).

Definition stringify_errors (l : list ApproachError) : string :=
  json_array (map (fun a => json_object2 "approach" (approach a) "error" (approach_error a)) l).

(** Where control goes after a [try] block that ends in [return]: out of
    the method, or on to the code after the block. *)
Inductive Flow (A : Type) : Type :=
| Return_
| Next (x : A).
Arguments Return_ {A}.
Arguments Next {A} x.

(** [try { body; return; } catch (error) { handler error }]. *)
Definition try_return {A : Type} (body : Prog unit) (handler : JsError -> Prog A)
  : Prog (Flow A) :=
  r <- attempt body ;;
  match r with
  | Ok _ => Ret Return_
  | Err error => x <- handler error ;; Ret (Next x)
  end.

Notation "'next' x <- p ;; q" :=
  (bind p (fun r => match r with Return_ => Ret tt | Next x => q end))
  (at level 100, x name, p at next level, q at level 200, right associativity) : prog_scope.

Definition default_scope : string := "https://graph.microsoft.com/.default".

(** [tokenResponse && tokenResponse.token]. *)
Definition token_received (r : option AccessToken) : bool :=
  match r with Some t => nonempty (token t) | None => false end.

(** [new C(...)]: the object, unless the constructor throws. *)
Definition new (c : Credential) : Prog Credential :=
  sync (NewCredential c) ;; Ret c.

Definition testCredential : Prog bool :=
  try_catch
    (this <- get_this ;;
     match credential this with
     | Obj c =>
         tokenResponse <- await (GetToken c default_scope) ;;
         if token_received tokenResponse then
           log LInfo "Credential test successful" ;; Ret true
         else Raise (Error "No token received from credential")
     | _ => Raise (Error "No credential available to test")
     end)
    (fun error => log LError "Credential test failed" ;; Raise error).

Definition getCertificateFromKeyVault (env : Env) (keyVaultUri certificateName : string)
  : Prog CertificateInfo :=
  try_catch
    (tempCredential <- new DefaultAzureCredential ;;
     sync (NewCertificateClient keyVaultUri tempCredential) ;;
     let tempCertClient := mkCertificateClient keyVaultUri tempCredential in
     _ <- await (KvGetCertificate tempCertClient certificateName) ;;
     sync (NewSecretClient keyVaultUri tempCredential) ;;
     let tempSecretClient := mkSecretClient keyVaultUri tempCredential in
     secretResponse <- await (KvGetSecret tempSecretClient certificateName) ;;
     log LInfo "Certificate retrieved from Key Vault" ;;
     let certificateData := value secretResponse in
     Ret (mkCertificateInfo
            certificateData
            (default EmptyString (env_get env "AZURE_KEY_VAULT_CERTIFICATE_PASSWORD"))
            "pkcs12"))
    (fun error => log LError "Failed to get certificate from Key Vault" ;; Raise error).

(** The name of the temporary file:
    [`cert-${Date.now()}-${Math.random().toString(36).substr(2, 9)}.pfx`]. *)
Definition temp_file_name (now : Z) (suffix : string) : string :=
  "cert-" +:+ pretty now +:+ "-" +:+ suffix +:+ ".pfx".

(** [fs.unlinkSync(tempFilePath)] inside its own [try], a failure only
    logged. *)
Definition cleanup_after_success (tempFilePath : string) : Prog unit :=
  try_catch
    (sync (UnlinkSync tempFilePath) ;;
     log LDebug "Temporary certificate file cleaned up")
    (fun cleanupError => log LWarn "Failed to cleanup temporary certificate file").

Definition cleanup_after_error (tempFilePath : string) : Prog unit :=
  found <- (if nonempty tempFilePath then sync_total (ExistsSync tempFilePath)
            else Ret false) ;;
  if found then
    try_catch
      (sync (UnlinkSync tempFilePath))
      (fun cleanupError =>
         log LWarn "Failed to cleanup temporary certificate file after error")
  else Ret tt.

(** The calls that compute [tempFilePath] ([os.tmpdir], [Date.now],
    [Math.random], [path.join]) cannot throw, so the variable is assigned
    whenever the handler of the third block reads it. *)
Definition tryCreateCertificateCredential (tenantId clientId : string)
    (certificateInfo : CertificateInfo) : Prog unit :=
  let errors : list ApproachError := [] in
  (* Approach 1: direct certificate data (base64 string) *)
  next errors <-
    try_return
      (log LInfo "Attempting certificate credential with base64 string" ;;
       c <- new (ClientCertificateCredential tenantId clientId
                   (CertString (certificate certificateInfo))) ;;
       set_this (set_credential (Obj c)))
      (fun error =>
         log LDebug "Base64 string approach failed" ;;
         Ret (errors ++ [mkApproachError "base64String" (message error)])) ;;
  (* Approach 2: certificate buffer *)
  next errors <-
    try_return
      (log LInfo "Attempting certificate credential with buffer" ;;
       certBuffer <- sync (BufferFromBase64 (certificate certificateInfo)) ;;
       c <- new (ClientCertificateCredential tenantId clientId (CertBuffer certBuffer)) ;;
       set_this (set_credential (Obj c)))
      (fun error =>
         log LDebug "Buffer approach failed" ;;
         Ret (errors ++ [mkApproachError "buffer" (message error)])) ;;
  (* Approach 3: temporary file, passed by path *)
  log LInfo "Attempting certificate credential with temporary file" ;;
  tempDir <- sync_total OsTmpdir ;;
  now <- sync_total DateNow ;;
  suffix <- sync_total MathRandomSuffix ;;
  tempFilePath <- sync_total (PathJoin tempDir (temp_file_name now suffix)) ;;
  next errors <-
    try_return
      (certBuffer <- sync (BufferFromBase64 (certificate certificateInfo)) ;;
       sync (WriteFileSync tempFilePath certBuffer) ;;
       c <- new (ClientCertificateCredential tenantId clientId (CertPath tempFilePath)) ;;
       set_this (set_credential (Obj c)) ;;
       cleanup_after_success tempFilePath)
      (fun error =>
         let errors := errors ++ [mkApproachError "tempFile" (message error)] in
         log LDebug "Temporary file approach failed" ;;
         cleanup_after_error tempFilePath ;;
         Ret errors) ;;
  Raise (Error ("All certificate credential approaches failed: " +:+ stringify_errors errors)).

(** The prerequisites of the four strategies. *)
Definition managed_identity_configured (env : Env) : bool :=
  env_set env "AZURE_CLIENT_ID" || env_set env "MSI_ENDPOINT".

(** The four blocks of [setupCredentials], one per strategy.  Each of the
    first three ends in [return] when its credential passes the liveness
    test, and lets control go on to the next block otherwise. *)

(** Attempt 1: Managed Identity (only if we're likely in Azure environment). *)
Definition attemptManagedIdentity (env : Env) : Prog (Flow unit) :=
  if managed_identity_configured env then
    try_return
      (c <- new ManagedIdentityCredential ;;
       set_this (set_credential (Obj c)) ;;
       await_method testCredential ;;
       log LInfo "Successfully using Managed Identity credential")
      (fun error =>
         push_attempt (mkAttempt "ManagedIdentity" (message error)) ;;
         log LWarn "Managed Identity credential failed, trying fallback options" ;;
         set_this (set_credential Null))
  else Ret (Next tt).

(** Attempt 2: Certificate-based authentication. *)
Definition attemptCertificate (env : Env) : Prog (Flow unit) :=
  let keyVaultUri := env_get env "AZURE_KEY_VAULT_URI" in
  let certificateName := env_get env "AZURE_KEY_VAULT_CERTIFICATE_NAME" in
  let tenantId := env_get env "MICROSOFT_APP_TENANT_ID" in
  let clientId := env_get env "MICROSOFT_APP_ID" in
  match keyVaultUri, certificateName, tenantId, clientId with
  | Some keyVaultUri, Some certificateName, Some tenantId, Some clientId =>
      try_return
        (certificateInfo <-
           await_method (getCertificateFromKeyVault env keyVaultUri certificateName) ;;
         await_method (tryCreateCertificateCredential tenantId clientId certificateInfo) ;;
         await_method testCredential ;;
         log LInfo "Successfully using certificate-based credential")
        (fun error =>
           push_attempt (mkAttempt "ClientCertificate" (message error)) ;;
           log LWarn "Certificate-based credential failed, trying fallback options" ;;
           set_this (set_credential Null))
  | _, _, _, _ => Ret (Next tt)
  end.

(** Attempt 3: Client Secret authentication (if available). *)
Definition attemptClientSecret (env : Env) : Prog (Flow unit) :=
  let tenantId := env_get env "MICROSOFT_APP_TENANT_ID" in
  let clientId := env_get env "MICROSOFT_APP_ID" in
  let clientSecret := env_get env "MICROSOFT_APP_PASSWORD" in
  match tenantId, clientId, clientSecret with
  | Some tenantId, Some clientId, Some clientSecret =>
      try_return
        (c <- new (ClientSecretCredential tenantId clientId clientSecret) ;;
         set_this (set_credential (Obj c)) ;;
         await_method testCredential ;;
         log LInfo "Successfully using client secret credential")
        (fun error =>
           push_attempt (mkAttempt "ClientSecret" (message error)) ;;
           log LWarn "Client secret credential failed, trying fallback options" ;;
           set_this (set_credential Null))
  | _, _, _ => Ret (Next tt)
  end.

(** Attempt 4: Default Azure Credential (for development).  Its handler
    throws the aggregate error and leaves [this.credential] as it is. *)
Definition attemptDefault : Prog unit :=
  try_catch
    (c <- new DefaultAzureCredential ;;
     set_this (set_credential (Obj c)) ;;
     await_method testCredential ;;
     log LInfo "Successfully using DefaultAzureCredential")
    (fun error =>
       push_attempt (mkAttempt "DefaultAzureCredential" (message error)) ;;
       log LError "All credential attempts failed" ;;
       credentialAttempts <- get_attempts ;;
       Raise (Error ("All authentication methods failed. Attempts: "
                     +:+ stringify_attempts credentialAttempts))).

Definition setupCredentials (env : Env) : Prog unit :=
  try_catch
    (new_attempts ;;
     next _ <- attemptManagedIdentity env ;;
     next _ <- attemptCertificate env ;;
     next _ <- attemptClientSecret env ;;
     attemptDefault)
    (fun error => log LError "Failed to setup credentials" ;; Raise error).

Definition setupKeyVaultClients (env : Env) : Prog unit :=
  try_catch
    (let keyVaultUri := env_get env "AZURE_KEY_VAULT_URI" in
     this <- get_this ;;
     match keyVaultUri, credential this with
     | Some keyVaultUri, Obj c =>
         sync (NewSecretClient keyVaultUri c) ;;
         set_this (set_secretClient (Obj (mkSecretClient keyVaultUri c))) ;;
         sync (NewCertificateClient keyVaultUri c) ;;
         set_this (set_certificateClient (Obj (mkCertificateClient keyVaultUri c))) ;;
         log LInfo "Key Vault clients initialized"
     | _, _ => log LWarn "Key Vault URI not configured, skipping Key Vault client setup"
     end)
    (fun error => log LError "Failed to setup Key Vault clients" ;; Raise error).

Definition graph_scopes (env : Env) : list string :=
  match env_get env "GRAPH_SCOPES" with
  | Some v => split_comma v
  | None => ["https://graph.microsoft.com/.default"]
  end.

Definition setupGraphClient (env : Env) : Prog unit :=
  try_catch
    (this <- get_this ;;
     match credential this with
     | Obj c =>
         let scopes := graph_scopes env in
         sync (NewAuthProvider c scopes) ;;
         sync (InitWithMiddleware c scopes) ;;
         set_this (set_graphClient (Obj (mkGraphClient c scopes))) ;;
         log LInfo "Microsoft Graph client initialized"
     | _ => Raise (Error "Credential not initialized")
     end)
    (fun error => log LError "Failed to setup Microsoft Graph client" ;; Raise error).

Definition initialize (env : Env) : Prog bool :=
  try_catch
    (await_method (setupCredentials env) ;;
     await_method (setupKeyVaultClients env) ;;
     await_method (setupGraphClient env) ;;
     log LInfo "Credential factory initialized successfully" ;;
     Ret true)
    (fun error =>
       log LError "Failed to initialize credential factory" ;;
       set_this (set_initializationError (Obj error)) ;;
       Ret false).

Definition initializeAsync (env : Env) : Prog unit :=
  try_catch
    (b <- await_method (initialize env) ;;
     set_this (set_isInitialized (Obj b)))
    (fun error =>
       log LError "Critical error in credential factory initialization" ;;
       set_this (set_initializationError (Obj error)) ;;
       set_this (set_isInitialized (Obj false))).

(** The body of the constructor.  Its last statement calls
    [this.initializeAsync()] without awaiting it: the constructor returns
    when that call reaches its first suspend point, and the rest of the call
    goes on as a task of its own (see [construct]). *)
Definition constructor (env : Env) : Prog unit :=
  if env_is env "NODE_ENV" "test" then
    log LInfo "Skipping credential factory setup in test environment"
  else
    set_this (set_credential Null) ;;
    set_this (set_secretClient Null) ;;
    set_this (set_certificateClient Null) ;;
    set_this (set_graphClient Null) ;;
    set_this (set_initializationError Null) ;;
    set_this (set_isInitialized (Obj false)) ;;
    initializeAsync env.

(** [new CredentialFactory()] on a fresh object: the state when the
    constructor returns, and what is left of the initialization. *)
Definition construct (w : World) (env : Env) (s : Sys) : Step unit * Sys :=
  run_sync w (constructor env) (with_this blank s).

Fixpoint wait_loop (fuel : nat) (startTime timeoutMs : Z) : Prog unit :=
  this <- get_this ;;
  if negb (truthy_bool (isInitialized this)) && negb (truthy (initializationError this)) then
    now <- sync_total DateNow ;;
    if now - startTime <? timeoutMs then
      match fuel with
      | O => OutOfFuel
      | S fuel => sleep 100 ;; wait_loop fuel startTime timeoutMs
      end
    else Ret tt
  else Ret tt.

(** [fuel] bounds the turns of the [while] loop; [OutOfFuel] stands for a
    loop that has not ended within it. *)
Definition waitForInitialization (fuel : nat) (timeoutMs : Z) : Prog bool :=
  startTime <- sync_total DateNow ;;
  wait_loop fuel startTime timeoutMs ;;
  this <- get_this ;;
  match initializationError this with
  | Obj e => Raise e
  | _ =>
      if negb (truthy_bool (isInitialized this)) then
        Raise (Error "Credential initialization timeout")
      else Ret true
  end.

Definition ensureCredentialAvailable (env : Env) (fuel : nat) : Prog unit :=
  if env_is env "NODE_ENV" "test" then
    log LDebug "Skipping credential check in test environment"
  else
    this <- get_this ;;
    (if negb (truthy_bool (isInitialized this)) && negb (truthy (initializationError this)) then
       log LInfo "Waiting for credential initialization to complete" ;;
       await_method (waitForInitialization fuel 30000) ;;
       Ret tt
     else Ret tt) ;;
    this <- get_this ;;
    match initializationError this with
    | Obj e => Raise (Error ("Credentials not available: " +:+ message e))
    | _ =>
        if negb (truthy (credential this)) then
          Raise (Error "No credential available after initialization")
        else Ret tt
    end.

Definition getSecret (env : Env) (fuel : nat) (secretName : string) : Prog (option string) :=
  try_catch
    (await_method (ensureCredentialAvailable env fuel) ;;
     this <- get_this ;;
     match secretClient this with
     | Obj cl =>
         secret <- await (KvGetSecret cl secretName) ;;
         log LInfo "Secret retrieved successfully" ;;
         Ret (value secret)
     | _ => Raise (Error "Secret client not initialized. Ensure AZURE_KEY_VAULT_URI is configured.")
     end)
    (fun error => log LError "Failed to get secret" ;; Raise error).

Definition setSecret (secretName secretValue : string) : Prog unit :=
  try_catch
    (this <- get_this ;;
     match secretClient this with
     | Obj cl =>
         await (KvSetSecret cl secretName secretValue) ;;
         log LInfo "Secret set successfully"
     | _ => Raise (Error "Secret client not initialized. Ensure AZURE_KEY_VAULT_URI is configured.")
     end)
    (fun error => log LError "Failed to set secret" ;; Raise error).

Definition getCertificate (certificateName : string) : Prog KeyVaultCertificate :=
  try_catch
    (this <- get_this ;;
     match certificateClient this with
     | Obj cl =>
         cert <- await (KvGetCertificate cl certificateName) ;;
         log LInfo "Certificate retrieved successfully" ;;
         Ret cert
     | _ => Raise (Error "Certificate client not initialized. Ensure AZURE_KEY_VAULT_URI is configured.")
     end)
    (fun error => log LError "Failed to get certificate" ;; Raise error).

Definition getGraphClient : Prog GraphClient :=
  this <- get_this ;;
  match graphClient this with
  | Obj g => Ret g
  | _ => Raise (Error "Microsoft Graph client not initialized")
  end.

Definition getCredential : Prog Credential :=
  this <- get_this ;;
  match credential this with
  | Obj c => Ret c
  | _ => Raise (Error "Credential not initialized")
  end.

(** The argument of [getAccessToken]: an array of scopes or one string. *)
Inductive Scopes : Type :=
| ScopeArray (l : list string)
| ScopeString (s : string).

Definition scope_string (scopes : option Scopes) : string :=
  match scopes with
  | None => join " " ["https://graph.microsoft.com/.default"]
  | Some (ScopeArray l) => join " " l
  | Some (ScopeString s) => s
  end.

(** [x.getToken] on a slot that holds no object. *)
Definition cannot_read_getToken (what : string) : JsError :=
  TypeError ("Cannot read properties of " +:+ what +:+ " (reading 'getToken')").

Definition getAccessToken (env : Env) (fuel : nat) (scopes : option Scopes) : Prog string :=
  try_catch
    (await_method (ensureCredentialAvailable env fuel) ;;
     let scopeString := scope_string scopes in
     this <- get_this ;;
     match credential this with
     | Obj c =>
         tokenResponse <- await (GetToken c scopeString) ;;
         match tokenResponse with
         | Some t =>
             if nonempty (token t) then
               log LDebug "Access token retrieved" ;; Ret (token t)
             else Raise (Error "No token received from credential")
         | None => Raise (Error "No token received from credential")
         end
     | Null => Raise (cannot_read_getToken "null")
     | Undefined => Raise (cannot_read_getToken "undefined")
     end)
    (fun error => log LError "Failed to get access token" ;; Raise error).

Definition refreshCredentials (env : Env) : Prog unit :=
  try_catch
    (log LInfo "Refreshing credentials" ;;
     await_method (setupCredentials env) ;;
     await_method (setupKeyVaultClients env) ;;
     await_method (setupGraphClient env) ;;
     log LInfo "Credentials refreshed successfully")
    (fun error => log LError "Failed to refresh credentials" ;; Raise error).

Record HealthStatus : Type := mkHealthStatus {
  hs_credential : string;
  hs_secretClient : string;
  hs_certificateClient : string;
  hs_graphClient : string;
  hs_keyVaultUri : string
}.

Definition initialized_or_not {A : Type} (v : JsVal A) : string :=
  if truthy v then "initialized" else "not initialized".

Definition getHealthStatus (env : Env) : Prog HealthStatus :=
  this <- get_this ;;
  Ret (mkHealthStatus
         (initialized_or_not (credential this))
         (initialized_or_not (secretClient this))
         (initialized_or_not (certificateClient this))
         (initialized_or_not (graphClient this))
         (if env_set env "AZURE_KEY_VAULT_URI" then "configured" else "not configured")).

Definition hasInitializationError : Prog bool :=
  this <- get_this ;;
  Ret (match initializationError this with Null => false | _ => true end).

Definition getInitializationError : Prog (JsVal JsError) :=
  this <- get_this ;; Ret (initializationError this).

(** * Reasoning about runs *)

(** ** The run of a composed program *)

Lemma exec_bind {A B : Type} (w : World) (bg : Interference) (p : Prog A)
    (f : A -> Prog B) (s : Sys) :
  exec w bg (bind p f) s =
  match exec w bg p s with
  | (Returned a, s') => exec w bg (f a) s'
  | (Thrown e, s') => (Thrown e, s')
  | (Diverged, s') => (Diverged, s')
  end.
Proof.
  revert s.
  induction p as [a|e| |X c k IH|X c k IH|l m k IH|k IH|g k IH|k IH|l k IH];
    intros s; simpl; auto.
Qed.

Lemma exec_try_catch {A : Type} (w : World) (bg : Interference) (p : Prog A)
    (h : JsError -> Prog A) (s : Sys) :
  exec w bg (try_catch p h) s =
  match exec w bg p s with
  | (Thrown e, s') => exec w bg (h e) s'
  | r => r
  end.
Proof.
  revert s.
  induction p as [a|e| |X c k IH|X c k IH|l m k IH|k IH|g k IH|k IH|l k IH];
    intros s; simpl; auto.
Qed.

(** [post w bg p s Q]: the run of [p] from [s] ends in an outcome and a
    state related by [Q]. *)
Definition post {A : Type} (w : World) (bg : Interference) (p : Prog A) (s : Sys)
    (Q : Outcome A -> Sys -> Prop) : Prop :=
  Q (fst (exec w bg p s)) (snd (exec w bg p s)).

Section Post.
Context (w : World) (bg : Interference).

Lemma post_ret {A : Type} (a : A) (s : Sys) (Q : Outcome A -> Sys -> Prop) :
  Q (Returned a) s -> post w bg (Ret a) s Q.
Proof. exact (fun H => H). Qed.

Lemma post_raise {A : Type} (e : JsError) (s : Sys) (Q : Outcome A -> Sys -> Prop) :
  Q (Thrown e) s -> post w bg (Raise e) s Q.
Proof. exact (fun H => H). Qed.

Lemma post_bind {A B : Type} (p : Prog A) (f : A -> Prog B) (s : Sys)
    (Q : Outcome B -> Sys -> Prop) :
  post w bg p s (fun o s' =>
    match o with
    | Returned a => post w bg (f a) s' Q
    | Thrown e => Q (Thrown e) s'
    | Diverged => Q Diverged s'
    end) ->
  post w bg (bind p f) s Q.
Proof.
  unfold post. rewrite exec_bind.
  destruct (exec w bg p s) as [[a|e|] s']; simpl; auto.
Qed.

Lemma post_try_catch {A : Type} (p : Prog A) (h : JsError -> Prog A) (s : Sys)
    (Q : Outcome A -> Sys -> Prop) :
  post w bg p s (fun o s' =>
    match o with
    | Thrown e => post w bg (h e) s' Q
    | _ => Q o s'
    end) ->
  post w bg (try_catch p h) s Q.
Proof.
  unfold post. rewrite exec_try_catch.
  destruct (exec w bg p s) as [[a|e|] s']; simpl; auto.
Qed.

Lemma post_mono {A : Type} (p : Prog A) (s : Sys) (Q Q' : Outcome A -> Sys -> Prop) :
  post w bg p s Q -> (forall o s', Q o s' -> Q' o s') -> post w bg p s Q'.
Proof. unfold post. auto. Qed.

Lemma post_attempt {A : Type} (p : Prog A) (s : Sys)
    (Q : Outcome (Res A) -> Sys -> Prop) :
  post w bg p s (fun o s' =>
    match o with
    | Returned a => Q (Returned (Ok a)) s'
    | Thrown e => Q (Returned (Err e)) s'
    | Diverged => Q Diverged s'
    end) ->
  post w bg (attempt p) s Q.
Proof.
  intros H. unfold attempt. apply post_try_catch, post_bind.
  eapply post_mono; [exact H|]. intros [a|e|] s'; simpl; auto.
Qed.

Lemma post_try_return {A : Type} (body : Prog unit) (handler : JsError -> Prog A)
    (s : Sys) (Q : Outcome (Flow A) -> Sys -> Prop) :
  post w bg body s (fun o s' =>
    match o with
    | Returned _ => Q (Returned Return_) s'
    | Thrown e =>
        post w bg (handler e) s' (fun o' s'' =>
          match o' with
          | Returned x => Q (Returned (Next x)) s''
          | Thrown e' => Q (Thrown e') s''
          | Diverged => Q Diverged s''
          end)
    | Diverged => Q Diverged s'
    end) ->
  post w bg (try_return body handler) s Q.
Proof.
  intros H. unfold try_return. apply post_bind, post_attempt.
  eapply post_mono; [exact H|]. intros [[]|e|] s'; simpl; auto.
  intros H'. apply post_bind. eapply post_mono; [exact H'|].
  intros [x|e'|] s''; simpl; auto.
Qed.
End Post.

(** ** Single steps, with the state after them written out *)

Section Steps.
Context (w : World) (bg : Interference).

Lemma post_sync_total {X : Type} (c : SyncCall X) (s : Sys)
    (Q : Outcome X -> Sys -> Prop) :
  (forall x, fst (handle_sync w s c) = x ->
     Q (Returned x) (record (ESync c x) (with_files (snd (handle_sync w s c)) s))) ->
  post w bg (sync_total c) s Q.
Proof. intros H. exact (H _ eq_refl). Qed.

Lemma post_sync {X : Type} (c : SyncCall (Res X)) (s : Sys)
    (Q : Outcome X -> Sys -> Prop) :
  (forall r, fst (handle_sync w s c) = r ->
     Q (match r with Ok x => Returned x | Err e => Thrown e end)
       (record (ESync c r) (with_files (snd (handle_sync w s c)) s))) ->
  post w bg (sync c) s Q.
Proof.
  intros H. specialize (H _ eq_refl). revert H.
  unfold post, sync. simpl.
  destruct (handle_sync w s c) as [[x|e] fs]; simpl; auto.
Qed.

(** A constructor or a call that only succeeds or throws. *)
Lemma post_sync_unit (c : SyncCall (Res unit)) (s : Sys) (o : option JsError)
    (Q : Outcome unit -> Sys -> Prop) :
  handle_sync w s c = (res_of_error o, files s) ->
  (forall e, o = Some e -> Q (Thrown e) (record (ESync c (Err e)) s)) ->
  (o = None -> Q (Returned tt) (record (ESync c (Ok tt)) s)) ->
  post w bg (sync c) s Q.
Proof.
  intros Hc He Hn. apply post_sync. intros r <-. rewrite Hc. simpl.
  destruct o as [e|]; simpl; [apply He|apply Hn]; reflexivity.
Qed.

Lemma post_new (c : Credential) (s : Sys) (Q : Outcome Credential -> Sys -> Prop) :
  (forall e, new_credential_error w (trace s) c = Some e ->
     Q (Thrown e) (record (ESync (NewCredential c) (Err e)) s)) ->
  (new_credential_error w (trace s) c = None ->
     Q (Returned c) (record (ESync (NewCredential c) (Ok tt)) s)) ->
  post w bg (new c) s Q.
Proof.
  intros He Hn. unfold post, new, sync. simpl.
  destruct (new_credential_error w (trace s) c) as [e|]; simpl; auto.
Qed.

Lemma post_buffer_from (o : option string) (s : Sys)
    (Q : Outcome (list Byte.byte) -> Sys -> Prop) :
  (forall b64, o = Some b64 ->
     Q (Returned (buffer_from_base64 w b64))
       (record (ESync (BufferFromBase64 o) (Ok (buffer_from_base64 w b64))) s)) ->
  (o = None ->
     Q (Thrown buffer_from_error)
       (record (ESync (BufferFromBase64 o) (Err buffer_from_error)) s)) ->
  post w bg (sync (BufferFromBase64 o)) s Q.
Proof.
  intros Hs Hn. apply post_sync. intros r <-. simpl.
  destruct o as [b64|]; simpl; [apply Hs|apply Hn]; reflexivity.
Qed.

Lemma post_write_file (p : string) (d : list Byte.byte) (s : Sys)
    (Q : Outcome unit -> Sys -> Prop) :
  (forall e, write_error w (trace s) p = Some e ->
     Q (Thrown e) (record (ESync (WriteFileSync p d) (Err e)) s)) ->
  (write_error w (trace s) p = None ->
     Q (Returned tt)
       (record (ESync (WriteFileSync p d) (Ok tt)) (with_files ({[p]} ∪ files s) s))) ->
  post w bg (sync (WriteFileSync p d)) s Q.
Proof.
  intros He Hn. apply post_sync. intros r <-. simpl.
  destruct (write_error w (trace s) p) as [e|]; simpl; [apply He|apply Hn]; reflexivity.
Qed.

Lemma post_unlink (p : string) (s : Sys) (Q : Outcome unit -> Sys -> Prop) :
  (p ∉ files s -> Q (Thrown (enoent p)) (record (ESync (UnlinkSync p) (Err (enoent p))) s)) ->
  (forall e, p ∈ files s -> unlink_error w (trace s) p = Some e ->
     Q (Thrown e) (record (ESync (UnlinkSync p) (Err e)) s)) ->
  (p ∈ files s -> unlink_error w (trace s) p = None ->
     Q (Returned tt)
       (record (ESync (UnlinkSync p) (Ok tt)) (with_files (files s ∖ {[p]}) s))) ->
  post w bg (sync (UnlinkSync p)) s Q.
Proof.
  intros Hm He Hn. apply post_sync. intros r <-. simpl.
  case_bool_decide; simpl; [|apply Hm; assumption].
  destruct (unlink_error w (trace s) p) as [e|] eqn:E; simpl; [apply He|apply Hn]; auto.
Qed.

Lemma post_exists (p : string) (s : Sys) (Q : Outcome bool -> Sys -> Prop) :
  (p ∈ files s -> Q (Returned true) (record (ESync (ExistsSync p) true) s)) ->
  (p ∉ files s -> Q (Returned false) (record (ESync (ExistsSync p) false) s)) ->
  post w bg (sync_total (ExistsSync p)) s Q.
Proof.
  intros Hy Hn. apply post_sync_total. intros x <-. simpl.
  case_bool_decide; [apply Hy|apply Hn]; assumption.
Qed.

Lemma post_date_now (s : Sys) (Q : Outcome Z -> Sys -> Prop) :
  Q (Returned (now s)) (record (ESync DateNow (now s)) s) ->
  post w bg (sync_total DateNow) s Q.
Proof. exact (fun H => H). Qed.

Lemma post_log (l : Level) (m : string) (s : Sys) (Q : Outcome unit -> Sys -> Prop) :
  Q (Returned tt) (record (ELog l m) s) -> post w bg (log l m) s Q.
Proof. exact (fun H => H). Qed.

Lemma post_get_this (s : Sys) (Q : Outcome Factory -> Sys -> Prop) :
  Q (Returned (this s)) s -> post w bg get_this s Q.
Proof. exact (fun H => H). Qed.

Lemma post_set_this (f : Factory -> Factory) (s : Sys)
    (Q : Outcome unit -> Sys -> Prop) :
  Q (Returned tt) (with_this (f (this s)) s) -> post w bg (set_this f) s Q.
Proof. exact (fun H => H). Qed.

Lemma post_new_attempts (s : Sys) (Q : Outcome unit -> Sys -> Prop) :
  Q (Returned tt) (with_attempts [] s) -> post w bg new_attempts s Q.
Proof. exact (fun H => H). Qed.

Lemma post_push_attempt (a : Attempt) (s : Sys) (Q : Outcome unit -> Sys -> Prop) :
  Q (Returned tt) (with_attempts (credentialAttempts s ++ [a]) s) ->
  post w bg (push_attempt a) s Q.
Proof. exact (fun H => H). Qed.

Lemma post_get_attempts (s : Sys) (Q : Outcome (list Attempt) -> Sys -> Prop) :
  Q (Returned (credentialAttempts s)) s -> post w bg get_attempts s Q.
Proof. exact (fun H => H). Qed.
End Steps.

(** With no other task writing, a suspend point only shows [this]. *)
Section StepsAlone.
Context (w : World).

Lemma post_tick (s : Sys) (Q : Outcome unit -> Sys -> Prop) :
  Q (Returned tt) (yielded s) -> post w alone tick s Q.
Proof. destruct s; exact (fun H => H). Qed.

Lemma post_await {X : Type} (c : AsyncCall (Res X)) (s : Sys)
    (Q : Outcome X -> Sys -> Prop) :
  (forall r, fst (handle_async w (yielded s) c) = r ->
     Q (match r with Ok x => Returned x | Err e => Thrown e end)
       (after_async c (r, snd (handle_async w (yielded s) c)) (yielded s))) ->
  post w alone (await c) s Q.
Proof.
  intros H. specialize (H _ eq_refl). revert H.
  unfold post, await. simpl.
  replace (suspend alone s) with (yielded s) by (destruct s; reflexivity).
  destruct (handle_async w (yielded s) c) as [[x|e] t]; simpl; auto.
Qed.

Lemma post_await_method {A : Type} (p : Prog A) (s : Sys)
    (Q : Outcome A -> Sys -> Prop) :
  post w alone p s (fun o s' =>
    match o with
    | Diverged => Q Diverged s'
    | _ => Q o (yielded s')
    end) ->
  post w alone (await_method p) s Q.
Proof.
  intros H. unfold await_method. apply post_bind, post_attempt.
  eapply post_mono; [exact H|].
  intros [a|e|] s'; simpl; auto; intros HQ; apply post_bind, post_tick; exact HQ.
Qed.
End StepsAlone.

(** Symbolic execution: one step of the program at the head of a [post]
    goal, the state rewritten to its components. *)
Ltac tidy :=
  cbv beta iota delta [record with_this with_attempts with_files with_now yielded after_async];
  cbn [this files now trace yields credentialAttempts
       credential secretClient certificateClient graphClient initializationError
       isInitialized set_credential set_secretClient set_certificateClient
       set_graphClient set_initializationError set_isInitialized
       handle_sync handle_async fst snd res_of_error await_trace message].

Ltac tidy_in H :=
  cbv beta iota delta [record with_this with_attempts with_files with_now yielded after_async]
    in H;
  cbn [this files now trace yields credentialAttempts
       credential secretClient certificateClient graphClient initializationError
       isInitialized set_credential set_secretClient set_certificateClient
       set_graphClient set_initializationError set_isInitialized
       handle_sync handle_async fst snd res_of_error await_trace message] in H.

Ltac intro_tidy :=
  let H := fresh "Hw" in intros H; tidy_in H.

Ltac step :=
  lazymatch goal with
  | |- post _ _ (bind _ _) _ _ => apply post_bind
  | |- post _ _ (try_catch _ _) _ _ => apply post_try_catch
  | |- post _ _ (try_return _ _) _ _ => apply post_try_return
  | |- post _ _ (await_method _) _ _ => apply post_await_method
  | |- post _ _ (Ret _) _ _ => apply post_ret; tidy
  | |- post _ _ (Raise _) _ _ => apply post_raise; tidy
  | |- post _ _ (log _ _) _ _ => apply post_log; tidy
  | |- post _ _ get_this _ _ => apply post_get_this; tidy
  | |- post _ _ (set_this _) _ _ => apply post_set_this; tidy
  | |- post _ _ new_attempts _ _ => apply post_new_attempts; tidy
  | |- post _ _ (push_attempt _) _ _ => apply post_push_attempt; tidy
  | |- post _ _ get_attempts _ _ => apply post_get_attempts; tidy
  | |- post _ _ tick _ _ => apply post_tick; tidy
  | |- post _ _ (new _) _ _ => apply post_new; [intros ?; intro_tidy | intro_tidy]; tidy
  | |- post _ _ (sync (BufferFromBase64 _)) _ _ =>
      apply post_buffer_from; [intros ?; intro_tidy | intro_tidy]; tidy
  | |- post _ _ (sync (WriteFileSync _ _)) _ _ =>
      apply post_write_file; [intros ?; intro_tidy | intro_tidy]; tidy
  | |- post _ _ (sync (UnlinkSync _)) _ _ =>
      apply post_unlink;
      [intro_tidy | intros ?; intro_tidy; intro_tidy | intro_tidy; intro_tidy]; tidy
  | |- post _ _ (sync_total (ExistsSync _)) _ _ => apply post_exists; intro_tidy; tidy
  | |- post _ _ (sync_total DateNow) _ _ => apply post_date_now; tidy
  | |- post _ _ (sync_total _) _ _ => apply post_sync_total; intros ?; intro_tidy; tidy
  | |- post _ _ (sync _) _ _ => apply post_sync; intros [?|?]; intro_tidy; tidy
  | |- post _ _ (await _) _ _ => apply post_await; intros [?|?]; intro_tidy; tidy
  | |- post _ _ (if ?b then _ else _) _ _ => destruct b eqn:?; tidy
  | |- post _ _ (match ?x with _ => _ end) _ _ => destruct x eqn:?; tidy
  end.

(** The history after the steps, as the one before and what was added. *)
Ltac flatten_trace := rewrite <- ?app_assoc; cbn [app].

(** ** What a history shows *)

(** The four strategies of [setupCredentials], in their order. *)
Inductive Strategy : Type :=
| ManagedIdentity
| ClientCertificate
| ClientSecret
| DefaultAzure.

Definition strategies : list Strategy :=
  [ManagedIdentity; ClientCertificate; ClientSecret; DefaultAzure].

Definition rank (st : Strategy) : nat :=
  match st with
  | ManagedIdentity => 1
  | ClientCertificate => 2
  | ClientSecret => 3
  | DefaultAzure => 4
  end.

(** The [type] under which a strategy enters [credentialAttempts]. *)
Definition strategy_type (st : Strategy) : string :=
  match st with
  | ManagedIdentity => "ManagedIdentity"
  | ClientCertificate => "ClientCertificate"
  | ClientSecret => "ClientSecret"
  | DefaultAzure => "DefaultAzureCredential"
  end.

Definition strategy_of (c : Credential) : Strategy :=
  match c with
  | ManagedIdentityCredential => ManagedIdentity
  | ClientCertificateCredential _ _ _ => ClientCertificate
  | ClientSecretCredential _ _ _ => ClientSecret
  | DefaultAzureCredential => DefaultAzure
  end.

(** The prerequisite of a strategy, as the [if] in front of its block
    tests it. *)
Definition configured (env : Env) (st : Strategy) : bool :=
  match st with
  | ManagedIdentity => managed_identity_configured env
  | ClientCertificate =>
      match env_get env "AZURE_KEY_VAULT_URI", env_get env "AZURE_KEY_VAULT_CERTIFICATE_NAME",
            env_get env "MICROSOFT_APP_TENANT_ID", env_get env "MICROSOFT_APP_ID" with
      | Some _, Some _, Some _, Some _ => true
      | _, _, _, _ => false
      end
  | ClientSecret =>
      match env_get env "MICROSOFT_APP_TENANT_ID", env_get env "MICROSOFT_APP_ID",
            env_get env "MICROSOFT_APP_PASSWORD" with
      | Some _, Some _, Some _ => true
      | _, _, _ => false
      end
  | DefaultAzure => true
  end.

Definition got_token (r : Res (option AccessToken)) : bool :=
  match r with Ok o => token_received o | Err _ => false end.

(** The liveness tests of a history: the credential asked, the scope, and
    whether a token came back. *)
Definition test_of (e : Event) : list (Credential * string * bool) :=
  match e with
  | EAwait c x =>
      match c in AsyncCall X return X -> list (Credential * string * bool) with
      | GetToken cr sc => fun r => [(cr, sc, got_token r)]
      | _ => fun _ => []
      end x
  | _ => []
  end.
Definition tests (tr : list Event) : list (Credential * string * bool) :=
  flat_map test_of tr.

(** The credential constructors called, with the argument they got and
    whether they returned. *)
Definition construction_of (e : Event) : list (Credential * bool) :=
  match e with
  | ESync c x =>
      match c in SyncCall X return X -> list (Credential * bool) with
      | NewCredential cr => fun r => [(cr, match r with Ok _ => true | Err _ => false end)]
      | _ => fun _ => []
      end x
  | _ => []
  end.
Definition constructions (tr : list Event) : list (Credential * bool) :=
  flat_map construction_of tr.

(** The lines with which [setupCredentials] closes a strategy: it is in
    use, or it failed and the next one is tried. *)
Definition conclusion_lines : list (string * (Strategy * bool)) :=
  [ ("Successfully using Managed Identity credential", (ManagedIdentity, true));
    ("Managed Identity credential failed, trying fallback options", (ManagedIdentity, false));
    ("Successfully using certificate-based credential", (ClientCertificate, true));
    ("Certificate-based credential failed, trying fallback options", (ClientCertificate, false));
    ("Successfully using client secret credential", (ClientSecret, true));
    ("Client secret credential failed, trying fallback options", (ClientSecret, false));
    ("Successfully using DefaultAzureCredential", (DefaultAzure, true));
    ("All credential attempts failed", (DefaultAzure, false)) ].

Fixpoint lookup_line (m : string) (l : list (string * (Strategy * bool)))
  : list (Strategy * bool) :=
  match l with
  | [] => []
  | (m', r) :: rest => if String.eqb m m' then [r] else lookup_line m rest
  end.

Definition conclusion_of (e : Event) : list (Strategy * bool) :=
  match e with
  | ELog _ m => lookup_line m conclusion_lines
  | _ => []
  end.
Definition conclusions (tr : list Event) : list (Strategy * bool) :=
  flat_map conclusion_of tr.

Lemma tests_app (a b : list Event) : tests (a ++ b) = tests a ++ tests b.
Proof. apply flat_map_app. Qed.
Lemma constructions_app (a b : list Event) :
  constructions (a ++ b) = constructions a ++ constructions b.
Proof. apply flat_map_app. Qed.
Lemma conclusions_app (a b : list Event) :
  conclusions (a ++ b) = conclusions a ++ conclusions b.
Proof. apply flat_map_app. Qed.

(** A stretch of history with no liveness test and no closing line. *)
Definition quiet (d : list Event) : Prop := tests d = [] /\ conclusions d = [].

Lemma quiet_nil : quiet [].
Proof. split; reflexivity. Qed.

Lemma quiet_app (a b : list Event) : quiet a -> quiet b -> quiet (a ++ b).
Proof.
  intros [Ha1 Ha2] [Hb1 Hb2]. split.
  - rewrite tests_app, Ha1, Hb1. reflexivity.
  - rewrite conclusions_app, Ha2, Hb2. reflexivity.
Qed.

(** ** The liveness test *)

(** What [testCredential] throws when no token came back. *)
Definition test_error (r : Res (option AccessToken)) : JsError :=
  match r with
  | Err e => e
  | Ok _ => Error "No token received from credential"
  end.

(** The state after a liveness test of [c] answered by [r], at time [t]. *)
Definition tested (c : Credential) (r : Res (option AccessToken)) (t : Z) (s : Sys) : Sys :=
  mkSys (this s) (files s) t
        (trace s ++ [EAwait (GetToken c default_scope) r;
                     if got_token r then ELog LInfo "Credential test successful"
                     else ELog LError "Credential test failed"])
        (yields s ++ [this s]) (credentialAttempts s).

Lemma post_testCredential (w : World) (s : Sys) (c : Credential)
    (Q : Outcome bool -> Sys -> Prop) :
  credential (this s) = Obj c ->
  (forall r t, get_token w (trace s) c default_scope = r -> now s <= t ->
     Q (if got_token r then Returned true else Thrown (test_error r)) (tested c r t s)) ->
  post w alone testCredential s Q.
Proof.
  intros Hc H. unfold testCredential.
  apply post_try_catch, post_bind, post_get_this. tidy. rewrite Hc.
  specialize (H (get_token w (trace s) c default_scope)
                (now s + Z.of_N (elapsed w (trace s))) eq_refl ltac:(lia)).
  unfold tested in H.
  repeat step; rewrite Hw in H; simpl in H; rewrite ?Heqb in H;
    flatten_trace; exact H.
Qed.

Lemma post_testCredential_none (w : World) (s : Sys)
    (Q : Outcome bool -> Sys -> Prop) :
  truthy (credential (this s)) = false ->
  Q (Thrown (Error "No credential available to test"))
    (record (ELog LError "Credential test failed") s) ->
  post w alone testCredential s Q.
Proof.
  intros Hc H. unfold testCredential.
  apply post_try_catch, post_bind, post_get_this. tidy.
  destruct (credential (this s)); try discriminate; repeat step; exact H.
Qed.

(** ** The certificate sub-procedure, seen from the chain *)

Lemma post_tryCreateCertificateCredential (w : World) (s : Sys) (t c : string)
    (info : CertificateInfo) (Q : Outcome unit -> Sys -> Prop) :
  (forall d arg fs, quiet d ->
     constructions d ≠ [] ->
     last (constructions d) = Some (ClientCertificateCredential t c arg, true) ->
     Q (Returned tt)
       (mkSys (set_credential (Obj (ClientCertificateCredential t c arg)) (this s)) fs (now s)
              (trace s ++ d) (yields s) (credentialAttempts s))) ->
  (forall d e fs, quiet d ->
     Forall (fun x => snd x = false) (constructions d) ->
     Q (Thrown e) (mkSys (this s) fs (now s) (trace s ++ d) (yields s) (credentialAttempts s))) ->
  post w alone (tryCreateCertificateCredential t c info) s Q.
Proof.
  intros Hok Hfail.
  unfold tryCreateCertificateCredential, cleanup_after_success, cleanup_after_error.
  repeat step; try congruence; flatten_trace;
    first [ apply Hok; [split; reflexivity | discriminate | reflexivity]
          | apply Hfail; [split; reflexivity | repeat constructor] ].
Qed.

(** ** The certificate fetch, seen from the chain *)

Lemma post_getCertificateFromKeyVault (w : World) (env : Env) (s : Sys)
    (keyVaultUri certificateName : string) (Q : Outcome CertificateInfo -> Sys -> Prop) :
  (forall d Y t info, quiet d -> Forall (eq (this s)) Y -> now s <= t ->
     Q (Returned info)
       (mkSys (this s) (files s) t (trace s ++ d) (yields s ++ Y) (credentialAttempts s))) ->
  (forall d Y t e, quiet d -> Forall (eq (this s)) Y -> now s <= t ->
     Q (Thrown e)
       (mkSys (this s) (files s) t (trace s ++ d) (yields s ++ Y) (credentialAttempts s))) ->
  post w alone (getCertificateFromKeyVault env keyVaultUri certificateName) s Q.
Proof.
  intros Hok Hfail. unfold getCertificateFromKeyVault.
  repeat step; flatten_trace;
    lazymatch goal with
    | |- Q _ (mkSys _ _ _ _ (yields s) _) => rewrite <- (app_nil_r (yields s))
    | |- _ => idtac
    end;
    first [ apply Hok | apply Hfail ];
    first [ lia | split; reflexivity | solve [repeat constructor] ].
Qed.

(** One step of [setupCredentials]: a liveness test or one of the two parts
    of the certificate strategy as a whole, a plain step otherwise. *)
Ltac chain_step :=
  lazymatch goal with
  | |- post _ alone testCredential _ _ =>
      eapply post_testCredential;
      [ reflexivity
      | let r := fresh "r" in let t := fresh "t" in
        intros r t; intro_tidy; intro_tidy; unfold tested;
        destruct (got_token r) eqn:?; tidy ]
  | |- post _ alone (tryCreateCertificateCredential _ _ _) _ _ =>
      apply post_tryCreateCertificateCredential;
      [ intros ? ? ? ? ? ? | intros ? ? ? ? ? ]; tidy
  | |- post _ alone (getCertificateFromKeyVault _ _ _) _ _ =>
      apply post_getCertificateFromKeyVault;
      intros ? ? ? ? ?; intro_tidy; intro_tidy; tidy
  | |- _ => step
  end.

(** ** The chain of strategies: what holds between two blocks *)

(** The strategies that were attempted and failed when control reaches
    [st]: the configured ones before it. *)
Definition failed_before (env : Env) (st : Strategy) : list Strategy :=
  List.filter (fun x => Nat.ltb (rank x) (rank st) && configured env x) strategies.

(** The strategies a pass attempts when none succeeds. *)
Definition attempted (env : Env) : list Strategy :=
  List.filter (configured env) strategies.

Definition failures (l : list Strategy) : list (Strategy * bool) :=
  map (fun x => (x, false)) l.

Definition all_failed (l : list (Credential * string * bool)) : Prop :=
  Forall (fun x => snd x = false) l.

(** A liveness test of the history [d]: it asks the default scope, of a
    credential that a constructor of [d] returned, for a strategy whose
    prerequisites are there. *)
Definition sound_test (env : Env) (d : list Event) (x : Credential * string * bool) : Prop :=
  snd (fst x) = default_scope /\
  (fst (fst x), true) ∈ constructions d /\
  configured env (strategy_of (fst (fst x))) = true.

Definition tests_sound (env : Env) (d : list Event) : Prop :=
  Forall (sound_test env d) (tests d).

Definition tested_strategies (d : list Event) : list Strategy :=
  map (fun x => strategy_of (fst (fst x))) (tests d).

(** The strategies of [l] come in their fixed order, all before rank [k]. *)
Definition ordered (k : nat) (l : list Strategy) : Prop :=
  StronglySorted lt (map rank l) /\ Forall (fun x => (rank x < k)%nat) l.

(** [f] is [f0] but for the credential. *)
Definition same_clients (f0 f : Factory) : Prop := f = set_credential (credential f) f0.

(** What [this] may show at a suspend point of a pass started in [s0] with
    history [d] since: the clients of [s0], and as credential the one of
    [s0], [null], or a credential constructed in the pass. *)
Definition candidate_or_idle (s0 : Sys) (d : list Event) (f : Factory) : Prop :=
  same_clients (this s0) f /\
  (credential f = credential (this s0) \/ credential f = Null \/
   exists c, credential f = Obj c /\ (c, true) ∈ constructions d).

Lemma tests_sound_app (env : Env) (d e : list Event) :
  tests_sound env d ->
  Forall (sound_test env (d ++ e)) (tests e) ->
  tests_sound env (d ++ e).
Proof.
  unfold tests_sound. intros Hd He. rewrite tests_app. apply Forall_app. split; [|exact He].
  eapply Forall_impl; [exact Hd|]. intros x (Hs & Hc & Hk). split; [exact Hs|].
  split; [|exact Hk].
  rewrite constructions_app. apply elem_of_app. left. exact Hc.
Qed.

Lemma sound_test_here (env : Env) (d e : list Event) (c : Credential) (b : bool) :
  (c, true) ∈ constructions e ->
  configured env (strategy_of c) = true ->
  sound_test env (d ++ e) (c, default_scope, b).
Proof.
  intros Hin Hk. split; [reflexivity|]. split; [|exact Hk].
  rewrite constructions_app. apply elem_of_app. right. exact Hin.
Qed.

Lemma tested_strategies_app (d e : list Event) :
  tested_strategies (d ++ e) = tested_strategies d ++ tested_strategies e.
Proof. unfold tested_strategies. rewrite tests_app. apply map_app. Qed.

Lemma ordered_weaken (k k' : nat) (l : list Strategy) :
  ordered k l -> (k <= k')%nat -> ordered k' l.
Proof.
  intros [Hs Hb] Hk. split; [exact Hs|].
  eapply Forall_impl; [exact Hb|]. intros x Hx. simpl in Hx. lia.
Qed.

Lemma ordered_snoc (k k' : nat) (l : list Strategy) (x : Strategy) :
  ordered k l -> (k <= rank x)%nat -> (rank x < k')%nat -> ordered k' (l ++ [x]).
Proof.
  intros [Hs Hb] Hk Hk'. split.
  - rewrite map_app. simpl. induction l as [|y l IH]; simpl.
    + repeat constructor.
    + inversion Hs as [|? ? Hs' Hy]; subst. inversion Hb as [|? ? Hy' Hb']; subst.
      constructor; [apply IH; assumption|].
      apply Forall_app. split; [exact Hy|]. constructor; [lia|constructor].
  - apply Forall_app. split.
    + eapply Forall_impl; [exact Hb|]. intros y Hy. simpl in Hy. lia.
    + constructor; [exact Hk'|constructor].
Qed.

Lemma candidate_or_idle_app (s0 : Sys) (d e : list Event) (f : Factory) :
  candidate_or_idle s0 d f -> candidate_or_idle s0 (d ++ e) f.
Proof.
  intros [Hs [H|[H|(c & H & Hc)]]]; (split; [exact Hs|]); auto.
  right; right. exists c. split; [exact H|].
  rewrite constructions_app. apply elem_of_app. left. exact Hc.
Qed.

Lemma same_clients_set (f0 f : Factory) (v : JsVal Credential) :
  same_clients f0 f -> same_clients f0 (set_credential v f).
Proof. unfold same_clients. intros ->. reflexivity. Qed.

Lemma same_clients_refl (f : Factory) : same_clients f f.
Proof. destruct f; reflexivity. Qed.

(** The failed strategies grow by the one just left, if it was configured. *)
Lemma failed_before_next (env : Env) (st st' : Strategy) :
  rank st' = S (rank st) ->
  failed_before env st' = failed_before env st ++ (if configured env st then [st] else []).
Proof.
  destruct st, st'; try discriminate; intros _; unfold failed_before; cbn;
    repeat match goal with
    | |- context [if ?b then _ else _] => destruct b
    end; reflexivity.
Qed.

Lemma attempted_all (env : Env) : attempted env = failed_before env DefaultAzure ++ [DefaultAzure].
Proof.
  unfold attempted, failed_before; cbn;
    repeat match goal with
    | |- context [if ?b then _ else _] => destruct b
    end; reflexivity.
Qed.

Section Chain.
Context (w : World) (env : Env) (s0 : Sys).

(** Control has reached the block of [st] and nothing is committed. *)
Definition Progress (st : Strategy) (s : Sys) : Prop :=
  exists d Y,
    trace s = trace s0 ++ d /\ yields s = yields s0 ++ Y /\
    tests_sound env d /\ ordered (rank st) (tested_strategies d) /\ all_failed (tests d) /\
    Forall (candidate_or_idle s0 d) Y /\
    conclusions d = failures (failed_before env st) /\
    map attempt_type (credentialAttempts s) = map strategy_type (failed_before env st) /\
    same_clients (this s0) (this s) /\
    (credential (this s) = credential (this s0) \/ credential (this s) = Null).

(** The pass has returned: a credential is committed. *)
Definition Committed (s' : Sys) : Prop :=
  exists d Y c earlier,
    trace s' = trace s0 ++ d /\ yields s' = yields s0 ++ Y /\
    tests_sound env d /\ ordered 5 (tested_strategies d) /\
    tests d = earlier ++ [(c, default_scope, true)] /\ all_failed earlier /\
    Forall (candidate_or_idle s0 d) Y /\
    this s' = set_credential (Obj c) (this s0) /\
    configured env (strategy_of c) = true /\
    conclusions d = failures (failed_before env (strategy_of c)) ++ [(strategy_of c, true)] /\
    map attempt_type (credentialAttempts s')
    = map strategy_type (failed_before env (strategy_of c)).

(** The pass has thrown [e]: every configured strategy failed. *)
Definition Exhausted (e : JsError) (s' : Sys) : Prop :=
  exists d Y,
    trace s' = trace s0 ++ d /\ yields s' = yields s0 ++ Y /\
    tests_sound env d /\ ordered 5 (tested_strategies d) /\ all_failed (tests d) /\
    Forall (candidate_or_idle s0 d) Y /\
    conclusions d = failures (attempted env) /\
    map attempt_type (credentialAttempts s') = map strategy_type (attempted env) /\
    e = Error ("All authentication methods failed. Attempts: "
               +:+ stringify_attempts (credentialAttempts s')) /\
    same_clients (this s0) (this s') /\
    (credential (this s') = credential (this s0) \/ credential (this s') = Null \/
     credential (this s') = Obj DefaultAzureCredential).

Definition chain_post (st : Strategy) (o : Outcome (Flow unit)) (s' : Sys) : Prop :=
  match o with
  | Returned Return_ => Committed s'
  | Returned (Next _) => Progress st s'
  | _ => False
  end.

(** What a block may show at its own suspend points, from the state [s]
    in which it starts. *)
Lemma candidate_or_idle_block (s : Sys) (d e : list Event) (f : Factory) :
  same_clients (this s0) (this s) ->
  credential (this s) = credential (this s0) \/ credential (this s) = Null ->
  candidate_or_idle s e f ->
  candidate_or_idle s0 (d ++ e) f.
Proof.
  intros Hsame Hcred [Hf Hc]. split.
  - unfold same_clients in *. rewrite Hf. rewrite Hsame at 1. reflexivity.
  - destruct Hc as [Hc|[Hc|(c & Hc & Hin)]].
    + rewrite Hc. destruct Hcred as [->| ->]; auto.
    + auto.
    + right; right. exists c. split; [exact Hc|].
      rewrite constructions_app. apply elem_of_app. right. exact Hin.
Qed.

Lemma Forall_candidate_block (s : Sys) (d e : list Event) (Y Z : list Factory) :
  same_clients (this s0) (this s) ->
  credential (this s) = credential (this s0) \/ credential (this s) = Null ->
  Forall (candidate_or_idle s0 d) Y ->
  Forall (candidate_or_idle s e) Z ->
  Forall (candidate_or_idle s0 (d ++ e)) (Y ++ Z).
Proof.
  intros Hsame Hcred HY HZ. apply Forall_app. split.
  - eapply Forall_impl; [exact HY|]. intros f. apply candidate_or_idle_app.
  - eapply Forall_impl; [exact HZ|]. intros f. apply candidate_or_idle_block; assumption.
Qed.

(** A block ends without a liveness test, or with one that failed. *)
Definition no_test_or_failed (st : Strategy) (e : list Event) : Prop :=
  tests e = [] \/
  exists c, tests e = [(c, default_scope, false)] /\ strategy_of c = st /\
            (c, true) ∈ constructions e.

Lemma Progress_skip (st st' : Strategy) (s : Sys) :
  Progress st s -> configured env st = false -> rank st' = S (rank st) ->
  Progress st' s.
Proof.
  intros (d & Y & Ht & Hy & Hsound & Hord & Hfail & HY & Hconc & Hatt & Hsame & Hcred)
         Hcfg Hrank.
  exists d, Y. rewrite (failed_before_next env st st' Hrank), Hcfg, app_nil_r.
  assert (Hord' : ordered (rank st') (tested_strategies d))
    by (eapply ordered_weaken; [exact Hord|lia]).
  tauto.
Qed.

Lemma Progress_fail (st st' : Strategy) (s s' : Sys) (e : list Event)
    (Z : list Factory) (msg : string) :
  Progress st s -> configured env st = true -> rank st' = S (rank st) ->
  trace s' = trace s ++ e -> yields s' = yields s ++ Z ->
  no_test_or_failed st e ->
  conclusions e = [(st, false)] ->
  credentialAttempts s' = credentialAttempts s ++ [mkAttempt (strategy_type st) msg] ->
  Forall (candidate_or_idle s e) Z ->
  this s' = set_credential Null (this s) ->
  Progress st' s'.
Proof.
  intros (d & Y & Ht & Hy & Hsound & Hord & Hfail & HY & Hconc & Hatt & Hsame & Hcred)
         Hcfg Hrank Ht' Hy' Htest Hconc' Hatt' HZ Hthis.
  exists (d ++ e), (Y ++ Z).
  rewrite (failed_before_next env st st' Hrank), Hcfg.
  split; [rewrite Ht', Ht, app_assoc; reflexivity|].
  split; [rewrite Hy', Hy, app_assoc; reflexivity|].
  split.
  { apply tests_sound_app; [exact Hsound|].
    destruct Htest as [->|(c & -> & Hst & Hin)]; [constructor|].
    constructor; [|constructor]. apply sound_test_here; [exact Hin|].
    rewrite Hst. exact Hcfg. }
  split.
  { rewrite tested_strategies_app. unfold tested_strategies at 2.
    destruct Htest as [->|(c & -> & Hst & _)]; simpl.
    - rewrite app_nil_r. eapply ordered_weaken; [exact Hord|lia].
    - rewrite Hst. eapply ordered_snoc; [exact Hord|lia|lia]. }
  split.
  { unfold all_failed. rewrite tests_app. apply Forall_app. split; [exact Hfail|].
    destruct Htest as [->|(c & -> & _)]; repeat constructor. }
  split; [apply (Forall_candidate_block s); assumption|].
  split; [rewrite conclusions_app, Hconc, Hconc'; unfold failures; rewrite map_app;
          reflexivity|].
  split; [rewrite Hatt', !map_app, Hatt; reflexivity|].
  rewrite Hthis. split; [apply same_clients_set; exact Hsame|right; reflexivity].
Qed.

Lemma Committed_now (st : Strategy) (s s' : Sys) (e : list Event) (Z : list Factory)
    (c : Credential) :
  Progress st s -> configured env st = true ->
  trace s' = trace s ++ e -> yields s' = yields s ++ Z ->
  tests e = [(c, default_scope, true)] -> strategy_of c = st ->
  (c, true) ∈ constructions e ->
  conclusions e = [(st, true)] ->
  credentialAttempts s' = credentialAttempts s ->
  Forall (candidate_or_idle s e) Z ->
  this s' = set_credential (Obj c) (this s) ->
  Committed s'.
Proof.
  intros (d & Y & Ht & Hy & Hsound & Hord & Hfail & HY & Hconc & Hatt & Hsame & Hcred)
         Hcfg Ht' Hy' Htest Hst Hin Hconc' Hatt' HZ Hthis.
  exists (d ++ e), (Y ++ Z), c, (tests d).
  split; [rewrite Ht', Ht, app_assoc; reflexivity|].
  split; [rewrite Hy', Hy, app_assoc; reflexivity|].
  split.
  { apply tests_sound_app; [exact Hsound|]. rewrite Htest.
    constructor; [|constructor]. apply sound_test_here; [exact Hin|].
    rewrite Hst. exact Hcfg. }
  split.
  { rewrite tested_strategies_app. unfold tested_strategies at 2. rewrite Htest. simpl.
    rewrite Hst. eapply ordered_snoc; [exact Hord|lia|destruct st; simpl; lia]. }
  split; [rewrite tests_app, Htest; reflexivity|].
  split; [exact Hfail|].
  split; [apply (Forall_candidate_block s); assumption|].
  split; [rewrite Hthis; unfold same_clients in Hsame; rewrite Hsame; reflexivity|].
  rewrite Hst.
  split; [exact Hcfg|].
  split; [rewrite conclusions_app, Hconc, Hconc'; reflexivity|].
  rewrite Hatt'. exact Hatt.
Qed.

Lemma Exhausted_now (s s' : Sys) (e : list Event) (Z : list Factory) (msg : string)
    (err : JsError) :
  Progress DefaultAzure s ->
  trace s' = trace s ++ e -> yields s' = yields s ++ Z ->
  no_test_or_failed DefaultAzure e ->
  conclusions e = [(DefaultAzure, false)] ->
  credentialAttempts s' = credentialAttempts s ++ [mkAttempt "DefaultAzureCredential" msg] ->
  Forall (candidate_or_idle s e) Z ->
  this s' = this s \/ this s' = set_credential (Obj DefaultAzureCredential) (this s) ->
  err = Error ("All authentication methods failed. Attempts: "
               +:+ stringify_attempts (credentialAttempts s')) ->
  Exhausted err s'.
Proof.
  intros (d & Y & Ht & Hy & Hsound & Hord & Hfail & HY & Hconc & Hatt & Hsame & Hcred)
         Ht' Hy' Htest Hconc' Hatt' HZ Hthis ->.
  exists (d ++ e), (Y ++ Z). rewrite attempted_all.
  split; [rewrite Ht', Ht, app_assoc; reflexivity|].
  split; [rewrite Hy', Hy, app_assoc; reflexivity|].
  split.
  { apply tests_sound_app; [exact Hsound|].
    destruct Htest as [->|(c & -> & Hst & Hin)]; [constructor|].
    constructor; [|constructor]. apply sound_test_here; [exact Hin|].
    rewrite Hst. reflexivity. }
  split.
  { rewrite tested_strategies_app. unfold tested_strategies at 2.
    destruct Htest as [->|(c & -> & Hst & _)]; simpl.
    - rewrite app_nil_r. eapply ordered_weaken; [exact Hord|simpl; lia].
    - rewrite Hst. eapply ordered_snoc; [exact Hord|lia|simpl; lia]. }
  split.
  { unfold all_failed. rewrite tests_app. apply Forall_app. split; [exact Hfail|].
    destruct Htest as [->|(c & -> & _)]; repeat constructor. }
  split; [apply (Forall_candidate_block s); assumption|].
  split; [rewrite conclusions_app, Hconc, Hconc'; unfold failures; rewrite map_app;
          reflexivity|].
  split; [rewrite Hatt', !map_app, Hatt; reflexivity|].
  split; [reflexivity|].
  destruct Hthis as [-> | ->].
  - split; [exact Hsame|]. destruct Hcred; auto.
  - split; [apply same_clients_set; exact Hsame|]. right; right. reflexivity.
Qed.

Lemma Exhausted_log (e : JsError) (s' : Sys) (l : Level) (m : string) :
  conclusion_of (ELog l m) = [] ->
  Exhausted e s' -> Exhausted e (record (ELog l m) s').
Proof.
  intros Hm (d & Y & Ht & Hy & Hsound & Hord & Hfail & HY & Hconc & Hatt & He & Hsame & Hcred).
  assert (Ht0 : tests [ELog l m] = []) by reflexivity.
  assert (Hc0 : constructions [ELog l m] = []) by reflexivity.
  assert (Hn0 : conclusions [ELog l m] = []) by (unfold conclusions; cbn [flat_map]; rewrite Hm; reflexivity).
  exists (d ++ [ELog l m]), Y. simpl.
  split; [rewrite Ht, app_assoc; reflexivity|].
  split; [exact Hy|].
  split; [apply tests_sound_app; [exact Hsound|rewrite Ht0; constructor]|].
  split; [rewrite tested_strategies_app; unfold tested_strategies at 2; rewrite Ht0;
          simpl; rewrite app_nil_r; exact Hord|].
  split; [unfold all_failed; rewrite tests_app, Ht0, app_nil_r; exact Hfail|].
  split; [eapply Forall_impl; [exact HY|]; intros f; apply candidate_or_idle_app|].
  split; [rewrite conclusions_app, Hn0, app_nil_r; exact Hconc|].
  repeat split; assumption.
Qed.

Lemma candidate_this (s : Sys) (e : list Event) : candidate_or_idle s e (this s).
Proof. split; [apply same_clients_refl|left; reflexivity]. Qed.

Lemma candidate_null (s : Sys) (e : list Event) :
  candidate_or_idle s e (set_credential Null (this s)).
Proof. split; [apply same_clients_set, same_clients_refl|right; left; reflexivity]. Qed.

Lemma candidate_built (s : Sys) (e : list Event) (c : Credential) :
  (c, true) ∈ constructions e ->
  candidate_or_idle s e (set_credential (Obj c) (this s)).
Proof.
  intros H. split; [apply same_clients_set, same_clients_refl|].
  right; right. exists c. split; [reflexivity|exact H].
Qed.
End Chain.

(** The projections of a stretch of history made of steps written out and
    of quiet stretches. *)
Ltac env_facts :=
  repeat match goal with
  | H : env_get _ _ = _ |- _ => rewrite H
  | H : managed_identity_configured _ = _ |- _ => rewrite H
  end.

Ltac eval_lines :=
  repeat match goal with
  | |- context [lookup_line ?m ?l] =>
      let v := eval vm_compute in (lookup_line m l) in
      change (lookup_line m l) with v
  end.

Ltac project :=
  rewrite ?tests_app, ?constructions_app, ?conclusions_app;
  repeat match goal with
  | H : quiet ?d |- context [tests ?d] => rewrite (proj1 H)
  | H : quiet ?d |- context [conclusions ?d] => rewrite (proj2 H)
  end;
  cbn [tests constructions conclusions flat_map test_of construction_of conclusion_of app];
  eval_lines;
  repeat match goal with
  | H : got_token ?r = _ |- context [got_token ?r] => rewrite H
  end;
  cbn [app].

Ltac solve_elem :=
  rewrite ?constructions_app; 
  cbn [constructions flat_map construction_of app];
  rewrite ?elem_of_cons, ?elem_of_app;
  eauto 12 using last_Some_elem_of.

Ltac solve_configured :=
  cbn [configured]; env_facts; reflexivity.

Ltac solve_trace := cbn [trace yields]; rewrite <- ?app_assoc; reflexivity.
Ltac solve_yields :=
  cbn [trace yields]; rewrite <- ?app_assoc;
  first [reflexivity | symmetry; apply app_nil_r].

Ltac solve_no_test :=
  first [ left; project; reflexivity
        | right; eexists; split; [project; reflexivity|];
          split; [reflexivity|solve_elem] ].

Ltac solve_candidate :=
  first [ apply candidate_this | apply candidate_null
        | apply candidate_built; solve_elem ].

Ltac solve_candidates :=
  lazymatch goal with
  | |- Forall _ (_ ++ _) => apply Forall_app; split; solve_candidates
  | |- Forall _ [] => constructor
  | |- Forall _ (_ :: _) => constructor; [solve_candidate|solve_candidates]
  | H : Forall (eq _) ?Y |- Forall _ ?Y =>
      eapply Forall_impl; [exact H|]; intros ? <-; solve_candidate
  end.

Ltac leaf_fail HP :=
  eapply (Progress_fail _ _ _ _ _ _ _ _ _ HP);
  [ solve_configured | reflexivity | solve_trace | solve_yields | solve_no_test
  | project; reflexivity | reflexivity | solve_candidates | reflexivity ].

Ltac leaf_commit HP :=
  eapply (Committed_now _ _ _ _ _ _ _ _ HP);
  [ solve_configured | solve_trace | solve_yields | project; reflexivity | reflexivity
  | solve_elem | project; reflexivity | reflexivity | solve_candidates | reflexivity ].

Section ChainBlocks.
Context (w : World) (env : Env) (s0 : Sys).

Lemma attemptManagedIdentity_chain (s : Sys) :
  Progress env s0 ManagedIdentity s ->
  post w alone (attemptManagedIdentity env) s (chain_post env s0 ClientCertificate).
Proof.
  intros HP. unfold attemptManagedIdentity.
  destruct (managed_identity_configured env) eqn:Hcfg.
  - repeat chain_step; unfold chain_post;
      first [leaf_fail HP | leaf_commit HP].
  - apply post_ret.
    apply (Progress_skip env s0 ManagedIdentity); [exact HP|exact Hcfg|reflexivity].
Qed.

Lemma attemptCertificate_chain (s : Sys) :
  Progress env s0 ClientCertificate s ->
  post w alone (attemptCertificate env) s (chain_post env s0 ClientSecret).
Proof.
  intros HP. unfold attemptCertificate. cbv zeta.
  destruct (env_get env "AZURE_KEY_VAULT_URI") eqn:Huri;
    [destruct (env_get env "AZURE_KEY_VAULT_CERTIFICATE_NAME") eqn:Hname;
     [destruct (env_get env "MICROSOFT_APP_TENANT_ID") eqn:Htenant;
      [destruct (env_get env "MICROSOFT_APP_ID") eqn:Hclient|]|]|].
  2-5: apply post_ret;
    (apply (Progress_skip env s0 ClientCertificate); [exact HP|solve_configured|reflexivity]).
  repeat chain_step; unfold chain_post;
      first [leaf_fail HP | leaf_commit HP].
Qed.

Lemma attemptClientSecret_chain (s : Sys) :
  Progress env s0 ClientSecret s ->
  post w alone (attemptClientSecret env) s (chain_post env s0 DefaultAzure).
Proof.
  intros HP. unfold attemptClientSecret. cbv zeta.
  destruct (env_get env "MICROSOFT_APP_TENANT_ID") eqn:Htenant;
    [destruct (env_get env "MICROSOFT_APP_ID") eqn:Hclient;
     [destruct (env_get env "MICROSOFT_APP_PASSWORD") eqn:Hsecret|]|].
  2-4: apply post_ret;
    (apply (Progress_skip env s0 ClientSecret); [exact HP|solve_configured|reflexivity]).
  repeat chain_step; unfold chain_post;
      first [leaf_fail HP | leaf_commit HP].
Qed.

Lemma attemptDefault_chain (s : Sys) :
  Progress env s0 DefaultAzure s ->
  post w alone attemptDefault s (fun o s' =>
    match o with
    | Returned _ => Committed env s0 s'
    | Thrown e => Exhausted env s0 e s'
    | Diverged => False
    end).
Proof.
  intros HP. unfold attemptDefault.
  repeat chain_step;
    first [ leaf_commit HP
          | eapply (Exhausted_now _ _ _ _ _ _ _ _ HP);
            [ solve_trace | solve_yields | solve_no_test | project; reflexivity
            | reflexivity | solve_candidates
            | first [left; reflexivity | right; reflexivity]
            | reflexivity ] ].
Qed.
End ChainBlocks.

Lemma Progress_start (env : Env) (s : Sys) :
  Progress env s ManagedIdentity (with_attempts [] s).
Proof.
  exists [], []. simpl. rewrite !app_nil_r.
  split; [reflexivity|]. split; [reflexivity|].
  split; [constructor|]. split; [split; constructor|]. split; [constructor|].
  split; [constructor|]. split; [reflexivity|]. split; [reflexivity|].
  split; [apply same_clients_refl|left; reflexivity].
Qed.

(** A pass of [setupCredentials] from [s]: it commits a credential and
    returns, or every configured strategy failed and it throws. *)
Definition pass_post (env : Env) (s : Sys) (o : Outcome unit) (s' : Sys) : Prop :=
  match o with
  | Returned _ => Committed env s s'
  | Thrown e => Exhausted env s e s'
  | Diverged => False
  end.

Lemma setupCredentials_pass (w : World) (env : Env) (s : Sys) :
  post w alone (setupCredentials env) s (pass_post env s).
Proof.
  unfold setupCredentials.
  apply post_try_catch, post_bind, post_new_attempts.
  apply post_bind.
  eapply post_mono; [apply attemptManagedIdentity_chain, Progress_start|].
  intros [[|[]]|e|] s1 H1; simpl in H1; try contradiction; [exact H1|].
  apply post_bind.
  eapply post_mono; [apply attemptCertificate_chain, H1|].
  intros [[|[]]|e|] s2 H2; simpl in H2; try contradiction; [exact H2|].
  apply post_bind.
  eapply post_mono; [apply attemptClientSecret_chain, H2|].
  intros [[|[]]|e|] s3 H3; simpl in H3; try contradiction; [exact H3|].
  eapply post_mono; [apply attemptDefault_chain, H3|].
  intros [[]|e|] s4 H4; simpl in H4; try contradiction; [exact H4|].
  apply post_bind, post_log. apply post_raise.
  apply Exhausted_log; [reflexivity|exact H4].
Qed.

(** * The claims *)

(** ** The order of the strategies *)







(** ** The certificate sub-procedure *)


(** The path of the temporary file of a call made at time [now]. *)
Definition temp_file_path (w : World) (now : Z) (suffix : string) : string :=
  path_joined w (os_tmpdir w) (temp_file_name now suffix).



(** ** Runs given by their result *)

Lemma post_exec {A : Type} (w : World) (bg : Interference) (p : Prog A) (s : Sys)
    (r : Outcome A * Sys) :
  post w bg p s (fun o s' => (o, s') = r) -> exec w bg p s = r.
Proof. unfold post. destruct (exec w bg p s); auto. Qed.







(** ** The temporary file *)

(** The paths whose deletion threw. *)
Definition failed_unlink_of (e : Event) : list string :=
  match e with
  | ESync c x =>
      match c in SyncCall X return X -> list string with
      | UnlinkSync p => fun r => match r with Ok _ => [] | Err _ => [p] end
      | _ => fun _ => []
      end x
  | _ => []
  end.
Definition failed_unlinks (tr : list Event) : list string :=
  flat_map failed_unlink_of tr.

(** The files written. *)
Definition written_of (e : Event) : list string :=
  match e with
  | ESync c x =>
      match c in SyncCall X return X -> list string with
      | WriteFileSync p _ => fun r => match r with Ok _ => [p] | Err _ => [] end
      | _ => fun _ => []
      end x
  | _ => []
  end.
Definition written (tr : list Event) : list string := flat_map written_of tr.

Lemma path_joined_nonempty (w : World) (dir file : string) :
  nonempty (path_joined w dir file) = true.
Proof.
  unfold path_joined. destruct (nonempty (path_join w dir file)) eqn:E; [exact E|reflexivity].
Qed.

#[local] Set Warnings "-clear-no-such-hyp".

(** C4, as the code has it.  The sub-procedure writes at most one file,
    and on every path that wrote it, whether the constructor then returned
    or threw, [unlinkSync] is called on it before the sub-procedure returns
    or throws.  A file that is on disk afterwards and was not there before
    is one whose [unlinkSync] threw: that failure is caught and logged, and
    the file stays. *)
Theorem temporary_file_deleted_unless_unlink_throws (w : World) (s : Sys)
    (t c : string) (info : CertificateInfo) :
  post w alone (tryCreateCertificateCredential t c info) s
    (fun o s' =>
       exists d,
         trace s' = trace s ++ d /\
         (forall p, p ∈ files s' -> p ∈ files s \/ p ∈ failed_unlinks d) /\
         (forall p, p ∈ written d -> p ∉ files s' \/ p ∈ failed_unlinks d) /\
         (failed_unlinks d = [] -> files s' ⊆ files s) /\
         o <> Diverged).
Proof.
  unfold tryCreateCertificateCredential, cleanup_after_success, cleanup_after_error.
  repeat step;
    (eexists; split; [cbn [trace]; rewrite <- ?app_assoc; reflexivity|]);
    cbn [failed_unlinks written flat_map failed_unlink_of written_of app files];
    try match goal with
        | H : nonempty ?x = false, H' : path_joined _ _ _ = ?x |- _ =>
            rewrite <- H', path_joined_nonempty in H; discriminate H
        end;
    repeat match goal with H : _ = _ |- _ => clear H end;
    (split; [|split; [|split]]); try discriminate; try (clear; set_solver); set_solver.
Qed.

(** ** Sample worlds *)

Definition sample_token : AccessToken := mkAccessToken "eyJ0eXAiOiJKV1Qi" 1700003600000.

(** A world given by its constructors, its token service, its certificate
    service and its [unlink]; the rest works: secrets hold the base64
    text [QUJD], the temporary directory is [/tmp], an awaited call takes
    five milliseconds. *)
Definition sample_world
    (ctor : list Event -> Credential -> option JsError)
    (tok : list Event -> Credential -> string -> Res (option AccessToken))
    (cert : list Event -> CertificateClient -> string -> Res KeyVaultCertificate)
    (unlink : list Event -> string -> option JsError) : World :=
  mkWorld ctor (fun _ _ _ => None) (fun _ _ _ => None) (fun _ _ _ => None)
          (fun _ _ _ => None) tok cert
          (fun _ _ _ => Ok (mkSecret (Some "QUJD")))
          (fun _ _ _ _ => None)
          (fun _ => [])
          "/tmp"
          (fun d f => d +:+ "/" +:+ f)
          (fun _ => "k3j9x0q1z")
          (fun _ _ => None)
          unlink
          (fun _ => 5%N).

Definition fresh : Sys := mkSys blank ∅ 1700000000000 [] [] [].

Definition every_constructor_returns (_ : list Event) (_ : Credential) : option JsError :=
  None.
Definition token_granted (_ : list Event) (_ : Credential) (_ : string)
  : Res (option AccessToken) := Ok (Some sample_token).
Definition token_refused (_ : list Event) (_ : Credential) (_ : string)
  : Res (option AccessToken) := Err (Error "CredentialUnavailableError").
Definition certificate_found (_ : list Event) (_ : CertificateClient) (n : string)
  : Res KeyVaultCertificate := Ok (mkCertificate n).
Definition certificate_missing (_ : list Event) (_ : CertificateClient) (n : string)
  : Res KeyVaultCertificate := Err (Error "CertificateNotFound").
Definition unlink_works (_ : list Event) (_ : string) : option JsError := None.

(** The constructor of the certificate credential takes a path only. *)
Definition only_a_path (_ : list Event) (c : Credential) : option JsError :=
  match c with
  | ClientCertificateCredential _ _ (CertPath _) => None
  | ClientCertificateCredential _ _ _ => Some (Error "Invalid certificate data")
  | _ => None
  end.

(** The temporary directory does not let files be removed. *)
Definition unlink_denied (_ : list Event) (p : string) : option JsError :=
  Some (Error ("EPERM: operation not permitted, unlink '" +:+ p +:+ "'")).

Definition sticky_world : World :=
  sample_world only_a_path token_granted certificate_found unlink_denied.

Definition sample_certificate : CertificateInfo :=
  mkCertificateInfo (Some "QUJD") EmptyString "pkcs12".

(** C4 as stated fails: where [unlinkSync] throws on the temporary file,
    the third approach succeeds, the failure of the deletion is only
    logged, and the file is still on disk when the sub-procedure returns. *)
Lemma temporary_file_left_on_disk :
  ~ (forall (w : World) (s : Sys) (t c : string) (info : CertificateInfo) (p : string),
       p ∈ files (snd (exec w alone (tryCreateCertificateCredential t c info) s)) ->
       p ∈ files s).
Proof.
  intros H.
  specialize (H sticky_world fresh "tenant" "client" sample_certificate
                "/tmp/cert-1700000000000-k3j9x0q1z.pfx").
  apply (not_elem_of_empty (C := gset string) "/tmp/cert-1700000000000-k3j9x0q1z.pfx").
  apply H. eapply bool_decide_eq_true_1. vm_compute. reflexivity.
Qed.

Example sticky_run :
  fst (exec sticky_world alone (tryCreateCertificateCredential "tenant" "client"
         sample_certificate) fresh) = Returned tt /\
  failed_unlinks (trace (snd (exec sticky_world alone
         (tryCreateCertificateCredential "tenant" "client" sample_certificate) fresh)))
    = ["/tmp/cert-1700000000000-k3j9x0q1z.pfx"].
Proof. split; vm_compute; reflexivity. Qed.

(** The constructor of the certificate credential takes no form of this
    certificate. *)
Definition no_certificate_form (_ : list Event) (c : Credential) : option JsError :=
  match c with
  | ClientCertificateCredential _ _ _ => Some (Error "Invalid certificate data")
  | _ => None
  end.

Definition rejecting_world : World :=
  sample_world no_certificate_form token_granted certificate_found unlink_works.



(** ** The test environment *)

Lemma env_is_true (env : Env) (x v : string) : env !! x = Some v -> env_is env x v = true.
Proof. intros H. unfold env_is. apply bool_decide_eq_true_2. exact H. Qed.

(** C10.  With [NODE_ENV] equal to [test] the constructor logs one line
    and returns: no field of the object is assigned, no call of the SDK is
    made and nothing is left to run.  [ensureCredentialAvailable] logs one
    line and returns, whatever the object holds.  [getAccessToken] on the
    object so constructed goes past the gate and fails on reading
    [getToken] of the undefined credential, with the engine's [TypeError]
    and not with an error of the gate. *)
Theorem test_environment_skips_setup_and_gate (w : World) (env : Env) (s : Sys)
    (fuel : nat) (scopes : option Scopes) :
  env !! "NODE_ENV" = Some "test" ->
  construct w env s
    = (Done (Returned tt),
       record (ELog LInfo "Skipping credential factory setup in test environment")
              (with_this blank s))
  /\ run_sync w (ensureCredentialAvailable env fuel) s
     = (Done (Returned tt),
        record (ELog LDebug "Skipping credential check in test environment") s)
  /\ this (snd (construct w env s)) = blank
  /\ fst (exec w alone (getAccessToken env fuel scopes) (snd (construct w env s)))
     = Thrown (cannot_read_getToken "undefined").
Proof.
  intros Henv. apply env_is_true in Henv.
  assert (Hc : construct w env s
               = (Done (Returned tt),
                  record (ELog LInfo "Skipping credential factory setup in test environment")
                         (with_this blank s))).
  { unfold construct, constructor. rewrite Henv. reflexivity. }
  split; [exact Hc|].
  split; [unfold ensureCredentialAvailable; rewrite Henv; reflexivity|].
  rewrite Hc. cbn [snd]. split; [reflexivity|].
  change (post w alone (getAccessToken env fuel scopes)
            (record (ELog LInfo "Skipping credential factory setup in test environment")
                    (with_this blank s))
            (fun o _ => o = Thrown (cannot_read_getToken "undefined"))).
  unfold getAccessToken, ensureCredentialAvailable. rewrite Henv.
  repeat step; first [reflexivity | discriminate].
Qed.

Definition test_env : Env := <["NODE_ENV" := "test"]> ∅.

Definition calm_world : World :=
  sample_world every_constructor_returns token_granted certificate_found unlink_works.

Lemma test_environment_skips_setup_and_gate_witness :
  test_env !! "NODE_ENV" = Some "test" /\
  this (snd (construct calm_world test_env fresh)) = blank /\
  fst (exec calm_world alone (getAccessToken test_env 0 None)
         (snd (construct calm_world test_env fresh)))
    = Thrown (cannot_read_getToken "undefined").
Proof.
  assert (H : test_env !! "NODE_ENV" = Some "test") by reflexivity.
  split; [exact H|].
  destruct (test_environment_skips_setup_and_gate calm_world test_env fresh 0 None H)
    as (_ & _ & Hb & Ht).
  split; [exact Hb | exact Ht].
Defined.

(** ** The health status *)

(** Resolution is pending: neither done nor failed, the condition on which
    the gate waits. *)
Definition pending (f : Factory) : bool :=
  negb (truthy_bool (isInitialized f)) && negb (truthy (initializationError f)).

Definition health_of (env : Env) (f : Factory) : HealthStatus :=
  mkHealthStatus
    (initialized_or_not (credential f))
    (initialized_or_not (secretClient f))
    (initialized_or_not (certificateClient f))
    (initialized_or_not (graphClient f))
    (if env_set env "AZURE_KEY_VAULT_URI" then "configured" else "not configured").

(** C7, as the code has it.  [getHealthStatus] returns in one synchronous
    step, whatever the state and whatever the other tasks do: it does not
    throw, reaches no suspend point and changes nothing.  What it reports for
    the credential is whether the slot holds an object at that moment: [not
    initialized] exactly when the slot is empty, be resolution pending or
    not. *)
Theorem getHealthStatus_is_a_snapshot (w : World) (bg : Interference) (env : Env)
    (s : Sys) :
  run_sync w (getHealthStatus env) s = (Done (Returned (health_of env (this s))), s)
  /\ exec w bg (getHealthStatus env) s = (Returned (health_of env (this s)), s)
  /\ (hs_credential (health_of env (this s)) = "not initialized"
      <-> truthy (credential (this s)) = false).
Proof.
  split; [reflexivity|]. split; [reflexivity|].
  unfold health_of, initialized_or_not. cbn [hs_credential].
  destruct (truthy (credential (this s))); split; intros H; [discriminate H|discriminate H| |];
    reflexivity.
Qed.

Definition azure_env : Env := <["MSI_ENDPOINT" := "http://169.254.169.254/msi"]> ∅.

(** C7 as stated fails: when the constructor returns, the resolution is
    suspended in the liveness test of the managed identity candidate; it is
    pending, and the status reports the credential as initialized. *)
Lemma health_status_reports_untested_candidate :
  ~ (forall (w : World) (env : Env) (s : Sys) (h : HealthStatus),
       pending (this (snd (construct w env s))) = true ->
       fst (run_sync w (getHealthStatus env) (snd (construct w env s))) = Done (Returned h) ->
       hs_credential h = "not initialized").
Proof.
  intros H.
  specialize (H calm_world azure_env fresh
                (health_of azure_env (this (snd (construct calm_world azure_env fresh))))).
  discriminate H; reflexivity.
Qed.

Example pending_after_construction :
  exists (k : Res (option AccessToken) -> Prog unit),
    fst (construct calm_world azure_env fresh)
      = Suspended (GetToken ManagedIdentityCredential default_scope) k /\
    credential (this (snd (construct calm_world azure_env fresh)))
      = Obj ManagedIdentityCredential /\
    pending (this (snd (construct calm_world azure_env fresh))) = true.
Proof. eexists. split; [reflexivity|]. split; reflexivity. Qed.

(** ** What the other tasks see during a pass *)

(** C9, as the code has it.  At every suspend point of a pass of
    [setupCredentials], the one that [initialize] and [refreshCredentials]
    run, the object shows the sub-clients it had before the pass and, as
    credential, the one it had before the pass, [null], or a credential
    that the pass has constructed, whether its liveness test is over or
    not. *)
Theorem suspend_points_show_candidates (w : World) (env : Env) (s : Sys) :
  post w alone (setupCredentials env) s
    (fun o s' =>
       exists d Y,
         trace s' = trace s ++ d /\ yields s' = yields s ++ Y /\
         Forall (fun f =>
                   same_clients (this s) f /\
                   (credential f = credential (this s) \/
                    credential f = Null \/
                    exists c, credential f = Obj c /\ (c, true) ∈ constructions d)) Y /\
         o <> Diverged).
Proof.
  eapply post_mono; [apply setupCredentials_pass|].
  intros [[]|e|] s' H; cbn [pass_post] in H; [| |contradiction].
  - destruct H as (d & Y & c & earlier & Ht & Hy & _ & _ & _ & _ & HY & _).
    exists d, Y. repeat split; try assumption; discriminate.
  - destruct H as (d & Y & Ht & Hy & _ & _ & _ & HY & _).
    exists d, Y. repeat split; try assumption; discriminate.
Qed.

(** The history says that a refresh has been asked for. *)
Definition refresh_requested (tr : list Event) : bool :=
  existsb (fun ev => match ev with
                     | ELog _ m => String.eqb m "Refreshing credentials"
                     | _ => false
                     end) tr.

(** The managed identity endpoint answers until the refresh, and no more
    after. *)
Definition managed_identity_withdrawn (tr : list Event) (c : Credential) (_ : string)
  : Res (option AccessToken) :=
  match c with
  | ManagedIdentityCredential =>
      if refresh_requested tr then
        Err (Error "ManagedIdentityCredential authentication unavailable")
      else Ok (Some sample_token)
  | _ => Ok (Some sample_token)
  end.

Definition rotating_world : World :=
  sample_world every_constructor_returns managed_identity_withdrawn certificate_missing
               unlink_works.

Definition full_env : Env :=
  <["MSI_ENDPOINT" := "http://169.254.169.254/msi"]>
    (<["AZURE_KEY_VAULT_URI" := "https://vault.example"]>
       (<["AZURE_KEY_VAULT_CERTIFICATE_NAME" := "bot-cert"]>
          (<["MICROSOFT_APP_TENANT_ID" := "tenant"]>
             (<["MICROSOFT_APP_ID" := "client"]>
                (<["MICROSOFT_APP_PASSWORD" := "s3cret"]> ∅))))).

(** The other task stores [f] at the [n]-th suspend point. *)
Definition finishing (f : Factory) (n : nat) : Interference :=
  fun s => if (n <=? length (yields s))%nat then f else this s.

(** The object once its construction and its initialization are over. *)
Definition settled (w : World) (env : Env) : Sys :=
  let s := snd (exec w alone (constructor env) (with_this blank fresh)) in
  mkSys (this s) (files s) (now s) (trace s) [] (credentialAttempts s).

(** C9 as stated fails: in a refresh that replaces the managed identity by
    the client secret, the suspend points of the certificate strategy show
    [null] as credential, which is neither the credential of before the
    refresh nor the one of after. *)
Lemma refresh_shows_null_credential :
  ~ (forall (w : World) (env : Env) (s : Sys) (f : Factory),
       f ∈ yields (snd (exec w alone (refreshCredentials env) s)) ->
       credential f = credential (this s) \/
       credential f = credential (this (snd (exec w alone (refreshCredentials env) s)))).
Proof.
  intros H.
  pose (s := settled rotating_world full_env).
  pose (s' := snd (exec rotating_world alone (refreshCredentials full_env) s)).
  assert (Hf : exists f, yields s' !! 2%nat = Some f /\ credential f = Null
                         /\ credential (this s) = Obj ManagedIdentityCredential
                         /\ credential (this s')
                            = Obj (ClientSecretCredential "tenant" "client" "s3cret")).
  { eexists. split; [vm_compute; reflexivity|]. split; [reflexivity|].
    split; vm_compute; reflexivity. }
  destruct Hf as (f & Hl & Hn & Hs & Hs').
  destruct (H rotating_world full_env s f) as [E|E].
  - apply list_elem_of_lookup. exists 2%nat. exact Hl.
  - rewrite Hn, Hs in E. discriminate E.
  - fold s' in E. rewrite Hn, Hs' in E. discriminate E.
Qed.

(** A call of [getAccessToken] in flight during that refresh: it passes
    the gate on the credential of before the refresh, and when it resumes
    the refresh has cleared the slot. *)
Example in_flight_getAccessToken_reads_null :
  forall f : Factory,
    yields (snd (exec rotating_world alone (refreshCredentials full_env)
                   (settled rotating_world full_env))) !! 2%nat = Some f ->
    fst (exec rotating_world (finishing f 1) (getAccessToken full_env 0 None)
           (settled rotating_world full_env))
    = Thrown (cannot_read_getToken "null").
Proof. intros f H. vm_compute in H. injection H as <-. vm_compute. reflexivity. Qed.

Example refresh_yields :
  map credential (yields (snd (exec rotating_world alone (refreshCredentials full_env)
                                 (settled rotating_world full_env))))
  = [Obj ManagedIdentityCredential; Obj ManagedIdentityCredential; Null; Null]
    ++ repeat (Obj (ClientSecretCredential "tenant" "client" "s3cret")) 5.
Proof. vm_compute. reflexivity. Qed.

(** ** Refresh and the stored failure *)

(** The record of the resolution, which the gate reads. *)
Definition resolution_state (f : Factory) : JsVal JsError * JsVal bool :=
  (initializationError f, isInitialized f).

Lemma same_clients_resolution_state (f0 f : Factory) :
  same_clients f0 f -> resolution_state f = resolution_state f0.
Proof. unfold same_clients. intros ->. reflexivity. Qed.

Lemma setupCredentials_resolution_state (w : World) (env : Env) (s : Sys) :
  post w alone (setupCredentials env) s
    (fun o s' => resolution_state (this s') = resolution_state (this s) /\ o <> Diverged).
Proof.
  eapply post_mono; [apply setupCredentials_pass|].
  intros [[]|e|] s' H; cbn [pass_post] in H; [| |contradiction].
  - destruct H as (d & Y & c & earlier & _ & _ & _ & _ & _ & _ & _ & Hthis & _).
    rewrite Hthis. split; [reflexivity|discriminate].
  - destruct H as (d & Y & _ & _ & _ & _ & _ & _ & _ & _ & _ & Hsame & _).
    split; [apply same_clients_resolution_state; exact Hsame|discriminate].
Qed.

Lemma setupKeyVaultClients_resolution_state (w : World) (env : Env) (s : Sys) :
  post w alone (setupKeyVaultClients env) s
    (fun o s' => resolution_state (this s') = resolution_state (this s) /\ o <> Diverged).
Proof. unfold setupKeyVaultClients. repeat step; split; first [reflexivity|discriminate]. Qed.

Lemma setupGraphClient_resolution_state (w : World) (env : Env) (s : Sys) :
  post w alone (setupGraphClient env) s
    (fun o s' => resolution_state (this s') = resolution_state (this s) /\ o <> Diverged).
Proof. unfold setupGraphClient. repeat step; split; first [reflexivity|discriminate]. Qed.

(** [refreshCredentials] ends, and never writes the record of the
    resolution. *)
Lemma refreshCredentials_resolution_state (w : World) (env : Env) (s : Sys) :
  post w alone (refreshCredentials env) s
    (fun o s' => resolution_state (this s') = resolution_state (this s) /\ o <> Diverged).
Proof.
  unfold refreshCredentials.
  do 4 step. step.
  eapply post_mono; [apply setupCredentials_resolution_state|].
  intros [[]|e|] s1 [H1 D1]; [| |contradiction D1; reflexivity]; cbn [this yielded] in H1.
  2:{ cbn beta iota. repeat step. split; [exact H1|discriminate]. }
  cbn beta iota. do 2 step.
  eapply post_mono; [apply setupKeyVaultClients_resolution_state|].
  intros [[]|e|] s2 [H2 D2]; [| |contradiction D2; reflexivity]; cbn [this yielded] in H2.
  2:{ cbn beta iota. repeat step. split; [congruence|discriminate]. }
  cbn beta iota. do 2 step.
  eapply post_mono; [apply setupGraphClient_resolution_state|].
  intros [[]|e|] s3 [H3 D3]; [| |contradiction D3; reflexivity]; cbn [this yielded] in H3;
    cbn beta iota; repeat step; (split; [congruence|discriminate]).
Qed.

(** Where the initialization has failed, the gate of [getAccessToken]
    throws the stored failure. *)
Lemma getAccessToken_after_failure (w : World) (env : Env) (s : Sys) (e0 : JsError)
    (fuel : nat) (scopes : option Scopes) :
  env_is env "NODE_ENV" "test" = false ->
  initializationError (this s) = Obj e0 ->
  fst (exec w alone (getAccessToken env fuel scopes) s)
  = Thrown (Error ("Credentials not available: " +:+ message e0)).
Proof.
  intros Henv He.
  change (post w alone (getAccessToken env fuel scopes) s
            (fun o _ => o = Thrown (Error ("Credentials not available: " +:+ message e0)))).
  unfold getAccessToken, ensureCredentialAvailable. rewrite Henv.
  do 5 step. rewrite He. cbn [truthy]. rewrite andb_false_r.
  repeat step; congruence.
Qed.

(** C8, what the code does: a refresh leaves [initializationError] and
    [isInitialized] as they were.  After an initialization that failed, a
    refresh that succeeds and commits a credential changes nothing for the
    callers of [getAccessToken]: the gate still throws the failure stored by
    the initialization. *)
Theorem refresh_keeps_stored_failure (w : World) (env : Env) (s : Sys) (e0 : JsError)
    (fuel : nat) (scopes : option Scopes) :
  env_is env "NODE_ENV" "test" = false ->
  initializationError (this s) = Obj e0 ->
  initializationError (this (snd (exec w alone (refreshCredentials env) s))) = Obj e0
  /\ isInitialized (this (snd (exec w alone (refreshCredentials env) s)))
     = isInitialized (this s)
  /\ fst (exec w alone (getAccessToken env fuel scopes)
            (snd (exec w alone (refreshCredentials env) s)))
     = Thrown (Error ("Credentials not available: " +:+ message e0)).
Proof.
  intros Henv He.
  destruct (refreshCredentials_resolution_state w env s) as [H _].
  unfold resolution_state in H. injection H as H1 H2.
  rewrite He in H1.
  split; [exact H1|]. split; [exact H2|].
  apply getAccessToken_after_failure; assumption.
Qed.

(** The token service is down until the refresh, and up after. *)
Definition token_after_refresh (tr : list Event) (_ : Credential) (_ : string)
  : Res (option AccessToken) :=
  if refresh_requested tr then Ok (Some sample_token)
  else Err (Error "CredentialUnavailableError").

Definition recovering_world : World :=
  sample_world every_constructor_returns token_after_refresh certificate_found unlink_works.

Definition bare_env : Env := ∅.

Definition first_failure : JsError :=
  Error ("All authentication methods failed. Attempts: "
         +:+ stringify_attempts
               [mkAttempt "DefaultAzureCredential" "CredentialUnavailableError"]).

(** An object whose initialization failed, refreshed with success: the
    refresh returns and commits the default credential, and
    [getAccessToken] still throws the failure of the initialization. *)
Lemma refresh_keeps_stored_failure_witness :
  initializationError (this (settled recovering_world bare_env)) = Obj first_failure /\
  fst (exec recovering_world alone (refreshCredentials bare_env)
         (settled recovering_world bare_env)) = Returned tt /\
  credential (this (snd (exec recovering_world alone (refreshCredentials bare_env)
                           (settled recovering_world bare_env))))
    = Obj DefaultAzureCredential /\
  fst (exec recovering_world alone (getAccessToken bare_env 0 None)
         (snd (exec recovering_world alone (refreshCredentials bare_env)
                 (settled recovering_world bare_env))))
    = Thrown (Error ("Credentials not available: " +:+ message first_failure)).
Proof.
  assert (He : initializationError (this (settled recovering_world bare_env))
               = Obj first_failure) by (vm_compute; reflexivity).
  split; [exact He|]. split; [vm_compute; reflexivity|]. split; [vm_compute; reflexivity|].
  apply (refresh_keeps_stored_failure recovering_world bare_env
           (settled recovering_world bare_env) first_failure 0 None);
    [reflexivity | exact He].
Defined.

(** ** The accessors and the gate *)

Definition secret_client_missing : JsError :=
  Error "Secret client not initialized. Ensure AZURE_KEY_VAULT_URI is configured.".
Definition certificate_client_missing : JsError :=
  Error "Certificate client not initialized. Ensure AZURE_KEY_VAULT_URI is configured.".
Definition graph_client_missing : JsError :=
  Error "Microsoft Graph client not initialized".

(** The resolution has succeeded. *)
Definition succeeded (f : Factory) : Prop :=
  isInitialized f = Obj true /\ initializationError f = Null /\
  truthy (credential f) = true.

Lemma getSecret_after_failure (w : World) (env : Env) (s : Sys) (e0 : JsError)
    (fuel : nat) (name : string) :
  env_is env "NODE_ENV" "test" = false ->
  initializationError (this s) = Obj e0 ->
  fst (exec w alone (getSecret env fuel name) s)
  = Thrown (Error ("Credentials not available: " +:+ message e0)).
Proof.
  intros Henv He.
  change (post w alone (getSecret env fuel name) s
            (fun o _ => o = Thrown (Error ("Credentials not available: " +:+ message e0)))).
  unfold getSecret, ensureCredentialAvailable. rewrite Henv.
  do 5 step. rewrite He. cbn [truthy]. rewrite andb_false_r.
  repeat step; congruence.
Qed.

Lemma getSecret_without_client (w : World) (env : Env) (s : Sys) (fuel : nat)
    (name : string) :
  env_is env "NODE_ENV" "test" = false ->
  succeeded (this s) ->
  truthy (secretClient (this s)) = false ->
  fst (exec w alone (getSecret env fuel name) s) = Thrown secret_client_missing.
Proof.
  intros Henv (Hi & He & Hc) Hs.
  change (post w alone (getSecret env fuel name) s
            (fun o _ => o = Thrown secret_client_missing)).
  unfold getSecret, ensureCredentialAvailable. rewrite Henv.
  do 5 step. rewrite Hi, He. cbn [truthy truthy_bool negb andb].
  repeat step; try reflexivity; try congruence;
    first [ discriminate Hs
          | match goal with
            | H : negb (truthy (credential _)) = true |- _ =>
                rewrite Hc in H; discriminate H
            end ].
Qed.

(** C6, as the code has it.  [getSecret] and [getAccessToken] pass the
    gate first: after a failed resolution they throw the error of the gate;
    [getSecret] then checks its sub-client and throws the error that says
    it is not configured.  [setSecret], [getCertificate] and
    [getGraphClient] do not go through the gate: whatever the state of the
    resolution, they throw the error of their sub-client when its slot is
    empty, without reaching a suspend point, and go on to use it when it is
    there; [getGraphClient] is synchronous. *)
Theorem accessors_and_the_gate (w : World) (env : Env) (s : Sys) (fuel : nat) :
  env_is env "NODE_ENV" "test" = false ->
  (forall (e0 : JsError) (name : string),
     initializationError (this s) = Obj e0 ->
     fst (exec w alone (getSecret env fuel name) s)
     = Thrown (Error ("Credentials not available: " +:+ message e0)))
  /\ (forall (e0 : JsError) (scopes : option Scopes),
        initializationError (this s) = Obj e0 ->
        fst (exec w alone (getAccessToken env fuel scopes) s)
        = Thrown (Error ("Credentials not available: " +:+ message e0)))
  /\ (forall name : string,
        succeeded (this s) -> truthy (secretClient (this s)) = false ->
        fst (exec w alone (getSecret env fuel name) s) = Thrown secret_client_missing)
  /\ (forall name value : string,
        truthy (secretClient (this s)) = false ->
        fst (run_sync w (setSecret name value) s) = Done (Thrown secret_client_missing))
  /\ (forall (name value : string) (cl : SecretClient),
        secretClient (this s) = Obj cl ->
        exists k, run_sync w (setSecret name value) s
                  = (Suspended (KvSetSecret cl name value) k, s))
  /\ (forall name : string,
        truthy (certificateClient (this s)) = false ->
        fst (run_sync w (getCertificate name) s) = Done (Thrown certificate_client_missing))
  /\ (forall (name : string) (cl : CertificateClient),
        certificateClient (this s) = Obj cl ->
        exists k, run_sync w (getCertificate name) s
                  = (Suspended (KvGetCertificate cl name) k, s))
  /\ run_sync w getGraphClient s
     = (Done (match graphClient (this s) with
              | Obj g => Returned g
              | _ => Thrown graph_client_missing
              end), s).
Proof.
  intros Henv.
  split; [intros; apply getSecret_after_failure; assumption|].
  split; [intros; apply getAccessToken_after_failure; assumption|].
  split; [intros; apply getSecret_without_client; assumption|].
  split.
  { intros name value H. unfold setSecret. cbn.
    destruct (secretClient (this s)); [reflexivity|reflexivity|discriminate H]. }
  split.
  { intros name value cl H. unfold setSecret. cbn. rewrite H. cbn. eexists. reflexivity. }
  split.
  { intros name H. unfold getCertificate. cbn.
    destruct (certificateClient (this s)); [reflexivity|reflexivity|discriminate H]. }
  split.
  { intros name cl H. unfold getCertificate. cbn. rewrite H. cbn. eexists. reflexivity. }
  unfold getGraphClient. cbn. destruct (graphClient (this s)); reflexivity.
Qed.

(** The vault works and the Graph library does not. *)
Definition graphless_world : World :=
  mkWorld every_constructor_returns (fun _ _ _ => None) (fun _ _ _ => None)
          (fun _ _ _ => Some (Error "Graph authentication provider unavailable"))
          (fun _ _ _ => None) token_granted certificate_found
          (fun _ _ _ => Ok (mkSecret (Some "QUJD")))
          (fun _ _ _ _ => None)
          (fun _ => [])
          "/tmp"
          (fun d f => d +:+ "/" +:+ f)
          (fun _ => "k3j9x0q1z")
          (fun _ _ => None)
          unlink_works
          (fun _ => 5%N).

Definition vault_env : Env := <["AZURE_KEY_VAULT_URI" := "https://vault.example"]> ∅.

Definition vault_client : SecretClient :=
  mkSecretClient "https://vault.example" DefaultAzureCredential.

Definition graph_failure : JsError := Error "Graph authentication provider unavailable".

(** C6 as stated fails: on an object whose resolution has failed after the
    vault clients were built, [setSecret] does not throw the error of the
    gate; it writes the secret and returns.  [getSecret], which makes the
    same check of the same client, awaits the gate before it and throws. *)
Lemma setSecret_skips_the_gate :
  ~ (forall (w : World) (env : Env) (s : Sys) (e0 : JsError) (name value : string),
       env_is env "NODE_ENV" "test" = false ->
       initializationError (this s) = Obj e0 ->
       fst (exec w alone (setSecret name value) s)
       = Thrown (Error ("Credentials not available: " +:+ message e0))).
Proof.
  intros H.
  specialize (H graphless_world vault_env (settled graphless_world vault_env)
                graph_failure "api-key" "v1").
  discriminate H; vm_compute; reflexivity.
Qed.

Example setSecret_on_failed_object :
  initializationError (this (settled graphless_world vault_env)) = Obj graph_failure /\
  isInitialized (this (settled graphless_world vault_env)) = Obj false /\
  fst (exec graphless_world alone (setSecret "api-key" "v1")
         (settled graphless_world vault_env)) = Returned tt.
Proof. repeat split; vm_compute; reflexivity. Qed.

Lemma accessors_and_the_gate_witness :
  fst (exec graphless_world alone (getSecret vault_env 0 "api-key")
         (settled graphless_world vault_env))
    = Thrown (Error ("Credentials not available: " +:+ message graph_failure)) /\
  (exists k, run_sync graphless_world (setSecret "api-key" "v1")
               (settled graphless_world vault_env)
             = (Suspended (KvSetSecret vault_client "api-key" "v1") k,
                settled graphless_world vault_env)) /\
  run_sync graphless_world getGraphClient (settled graphless_world vault_env)
    = (Done (Thrown graph_client_missing), settled graphless_world vault_env).
Proof.
  destruct (accessors_and_the_gate graphless_world vault_env
              (settled graphless_world vault_env) 0)
    as (H1 & _ & _ & _ & H5 & _ & _ & H8); [reflexivity|].
  split; [apply H1; vm_compute; reflexivity|].
  split; [apply H5; vm_compute; reflexivity|].
  rewrite H8. reflexivity.
Defined.

(** ** The readiness gate *)

Definition timeout_error : JsError := Error "Credential initialization timeout".
Definition gate_error (e0 : JsError) : JsError :=
  Error ("Credentials not available: " +:+ message e0).

(** What the gate does while it waits: it reads the clock, sleeps 100
    milliseconds and logs. *)
Definition polling_event (e : Event) : bool :=
  match e with
  | ESync c _ => match c with DateNow => true | _ => false end
  | EAwait c _ => match c with Sleep ms => ms =? 100 | _ => false end
  | ELog _ _ => true
  end.

(** The number of turns of the loop that a timeout of [timeoutMs] needs at
    most. *)
Definition enough_fuel (fuel : nat) (timeoutMs : Z) : Prop :=
  timeoutMs <= 100 * Z.of_nat fuel.

Section Gate.
Context (w : World) (bg : Interference).


Lemma post_sleep_any (ms : Z) (s : Sys) (Q : Outcome unit -> Sys -> Prop) :
  Q (Returned tt)
    (mkSys (bg (yielded s)) (files s)
           (now s + Z.max 0 ms + Z.of_N (elapsed w (trace s)))
           (trace s ++ [EAwait (Sleep ms) tt]) (yields s ++ [this s])
           (credentialAttempts s)) ->
  post w bg (sleep ms) s Q.
Proof. exact (fun H => H). Qed.


(** The loop ends within its fuel, on a state that is no longer pending or
    after the timeout, whatever the other tasks do. *)
Lemma wait_loop_ends (timeoutMs startTime : Z) (fuel : nat) :
  forall s : Sys,
    timeoutMs - (now s - startTime) <= 100 * Z.of_nat fuel ->
    post w bg (wait_loop fuel startTime timeoutMs) s
      (fun o s' =>
         o = Returned tt /\
         exists d Y,
           trace s' = trace s ++ d /\ yields s' = yields s ++ Y /\
           forallb polling_event d = true /\
           (pending (this s') = false \/ timeoutMs <= now s' - startTime) /\
           (bg = alone -> this s' = this s)).
Proof.
  induction fuel as [|fuel IH]; intros s Hfuel.
  - cbn [wait_loop]. apply post_bind, post_get_this.
    fold (pending (this s)). destruct (pending (this s)) eqn:Hp.
    + apply post_bind, post_date_now.
      destruct (now s - startTime <? timeoutMs) eqn:Hlt.
      * apply Z.ltb_lt in Hlt. cbn in Hfuel. lia.
      * apply Z.ltb_ge in Hlt. apply post_ret. split; [reflexivity|].
        exists [ESync DateNow (now s)], []. cbn. rewrite app_nil_r.
        split; [reflexivity|]. split; [reflexivity|]. split; [reflexivity|].
        split; [right; exact Hlt|reflexivity].
    + apply post_ret. split; [reflexivity|].
      exists [], []. rewrite !app_nil_r.
      split; [reflexivity|]. split; [reflexivity|]. split; [reflexivity|].
      split; [left; exact Hp|reflexivity].
  - cbn [wait_loop]. apply post_bind, post_get_this.
    fold (pending (this s)). destruct (pending (this s)) eqn:Hp.
    + apply post_bind, post_date_now.
      destruct (now s - startTime <? timeoutMs) eqn:Hlt.
      * apply post_bind, post_sleep_any.
        eapply post_mono; [apply IH|].
        { cbn [now record]. rewrite Nat2Z.inj_succ in Hfuel. lia. }
        intros o s' (-> & d & Y & Ht & Hy & Hd & Hend & Hsame). split; [reflexivity|].
        cbn [trace yields now record this] in Ht, Hy, Hsame.
        exists (ESync DateNow (now s) :: EAwait (Sleep 100) tt :: d), (this s :: Y).
        split; [rewrite Ht, <- !app_assoc; reflexivity|].
        split; [rewrite Hy, <- !app_assoc; reflexivity|].
        split; [cbn; exact Hd|]. split; [exact Hend|].
        intros Hbg. rewrite (Hsame Hbg), Hbg. reflexivity.
      * apply Z.ltb_ge in Hlt. apply post_ret. split; [reflexivity|].
        exists [ESync DateNow (now s)], []. cbn. rewrite app_nil_r.
        split; [reflexivity|]. split; [reflexivity|]. split; [reflexivity|].
        split; [right; exact Hlt|reflexivity].
    + apply post_ret. split; [reflexivity|].
      exists [], []. rewrite !app_nil_r.
      split; [reflexivity|]. split; [reflexivity|]. split; [reflexivity|].
      split; [left; exact Hp|reflexivity].
Qed.


End Gate.


Example gate_returns_once_resolved :
  let s := snd (construct calm_world azure_env fresh) in
  let s' := snd (exec calm_world (finishing (this (settled calm_world azure_env)) 3)
                   (ensureCredentialAvailable azure_env 300) s) in
  fst (exec calm_world (finishing (this (settled calm_world azure_env)) 3)
         (ensureCredentialAvailable azure_env 300) s) = Returned tt /\
  now s' - now s = 315 /\ length (yields s') = 4%nat.
Proof. cbv zeta. repeat split; vm_compute; reflexivity. Qed.

(** ** A resolution that fails *)





(** ** What the attempt log says of each failure *)
















Definition hostile_world : World :=
  sample_world every_constructor_returns token_refused certificate_found unlink_works.



(** The attempt log of that initialization, entry by entry. *)
Example hostile_attempt_log :
  credentialAttempts (snd (exec hostile_world alone (setupCredentials azure_env) fresh))
  = [mkAttempt "ManagedIdentity" "CredentialUnavailableError";
     mkAttempt "DefaultAzureCredential" "CredentialUnavailableError"].
Proof. vm_compute. reflexivity. Qed.

(** * Further properties of the class *)

(** ** The sub-clients *)

(** How [setupKeyVaultClients] ends from [s]: outcome and object. *)
Inductive KeyVaultSetup (w : World) (env : Env) (s : Sys) : Outcome unit -> Factory -> Prop :=
| VaultSkipped :
    env_get env "AZURE_KEY_VAULT_URI" = None \/ truthy (credential (this s)) = false ->
    KeyVaultSetup w env s (Returned tt) (this s)
| VaultClientsBuilt (uri : string) (c : Credential) :
    env_get env "AZURE_KEY_VAULT_URI" = Some uri ->
    credential (this s) = Obj c ->
    KeyVaultSetup w env s (Returned tt)
      (set_certificateClient (Obj (mkCertificateClient uri c))
         (set_secretClient (Obj (mkSecretClient uri c)) (this s)))
| SecretClientThrows (uri : string) (c : Credential) (e : JsError) :
    env_get env "AZURE_KEY_VAULT_URI" = Some uri ->
    credential (this s) = Obj c ->
    KeyVaultSetup w env s (Thrown e) (this s)
| CertificateClientThrows (uri : string) (c : Credential) (e : JsError) :
    env_get env "AZURE_KEY_VAULT_URI" = Some uri ->
    credential (this s) = Obj c ->
    KeyVaultSetup w env s (Thrown e) (set_secretClient (Obj (mkSecretClient uri c)) (this s)).

Lemma setupKeyVaultClients_spec (w : World) (bg : Interference) (env : Env) (s : Sys) :
  post w bg (setupKeyVaultClients env) s
    (fun o s' =>
       KeyVaultSetup w env s o (this s') /\
       yields s' = yields s /\ files s' = files s /\ now s' = now s /\
       credentialAttempts s' = credentialAttempts s /\
       exists d, trace s' = trace s ++ d /\ tests d = [] /\ constructions d = []).
Proof.
  unfold setupKeyVaultClients.
  repeat step.
  all: (split; [|split; [reflexivity|split; [reflexivity|split; [reflexivity|split;
         [reflexivity|eexists; split; [cbn [trace]; rewrite <- ?app_assoc; reflexivity|
                                       split; reflexivity]]]]]]).
  all: first [ eapply VaultClientsBuilt; eassumption
             | eapply SecretClientThrows; eassumption
             | eapply CertificateClientThrows; eassumption
             | apply VaultSkipped; left; assumption
             | apply VaultSkipped; right;
               match goal with H : credential _ = _ |- _ => rewrite H; reflexivity end ].
Qed.

(** How [setupGraphClient] ends from [s]. *)
Inductive GraphSetup (env : Env) (s : Sys) : Outcome unit -> Factory -> Prop :=
| GraphNoCredential :
    truthy (credential (this s)) = false ->
    GraphSetup env s (Thrown (Error "Credential not initialized")) (this s)
| GraphClientBuilt (c : Credential) :
    credential (this s) = Obj c ->
    GraphSetup env s (Returned tt)
      (set_graphClient (Obj (mkGraphClient c (graph_scopes env))) (this s))
| GraphLibraryThrows (c : Credential) (e : JsError) :
    credential (this s) = Obj c ->
    GraphSetup env s (Thrown e) (this s).

Lemma setupGraphClient_spec (w : World) (bg : Interference) (env : Env) (s : Sys) :
  post w bg (setupGraphClient env) s
    (fun o s' =>
       GraphSetup env s o (this s') /\
       yields s' = yields s /\ files s' = files s /\ now s' = now s /\
       credentialAttempts s' = credentialAttempts s /\
       exists d, trace s' = trace s ++ d /\ tests d = [] /\ constructions d = []).
Proof.
  unfold setupGraphClient.
  repeat step.
  all: (split; [|split; [reflexivity|split; [reflexivity|split; [reflexivity|split;
         [reflexivity|eexists; split; [cbn [trace]; rewrite <- ?app_assoc; reflexivity|
                                       split; reflexivity]]]]]]).
  all: first [ eapply GraphClientBuilt; eassumption
             | eapply GraphLibraryThrows; eassumption
             | apply GraphNoCredential;
               match goal with H : credential _ = _ |- _ => rewrite H; reflexivity end ].
Qed.

(** ** The result of the initialization *)

(** The object after a resolution that committed [c], from the object [f0]
    before it: the Graph client and, where a vault is configured, the vault
    clients are built on [c]. *)
Definition clients_on (env : Env) (f0 f : Factory) (c : Credential) : Prop :=
  credential f = Obj c /\
  graphClient f = Obj (mkGraphClient c (graph_scopes env)) /\
  match env_get env "AZURE_KEY_VAULT_URI" with
  | Some uri =>
      secretClient f = Obj (mkSecretClient uri c) /\
      certificateClient f = Obj (mkCertificateClient uri c)
  | None =>
      secretClient f = secretClient f0 /\ certificateClient f = certificateClient f0
  end.

(** The three steps that [initialize] and [refreshCredentials] share. *)
Definition three_steps (env : Env) : Prog unit :=
  await_method (setupCredentials env) ;;
  await_method (setupKeyVaultClients env) ;;
  await_method (setupGraphClient env).

(** How the three steps end: all of them returned, or the pass threw, or
    the pass committed [c] and a later step threw. *)
Inductive ThreeSteps (env : Env) (s : Sys) (d : list Event) (f : Factory)
  : Outcome unit -> Prop :=
| StepsDone (c : Credential) :
    clients_on env (this s) f c ->
    resolution_state f = resolution_state (this s) ->
    last (tests d) = Some (c, default_scope, true) ->
    ThreeSteps env s d f (Returned tt)
| PassThrew (e : JsError) :
    same_clients (this s) f ->
    all_failed (tests d) ->
    (credential f = credential (this s) \/ credential f = Null \/
     credential f = Obj DefaultAzureCredential) ->
    ThreeSteps env s d f (Thrown e)
| LaterStepThrew (c : Credential) (e : JsError) :
    credential f = Obj c ->
    resolution_state f = resolution_state (this s) ->
    last (tests d) = Some (c, default_scope, true) ->
    graphClient f = graphClient (this s) ->
    ThreeSteps env s d f (Thrown e).

Lemma KeyVaultSetup_keeps (w : World) (env : Env) (s : Sys) (o : Outcome unit)
    (f : Factory) :
  KeyVaultSetup w env s o f ->
  credential f = credential (this s) /\
  resolution_state f = resolution_state (this s) /\
  graphClient f = graphClient (this s).
Proof. destruct 1; repeat split; reflexivity. Qed.

Lemma KeyVaultSetup_returned (w : World) (env : Env) (s : Sys) (f : Factory)
    (c : Credential) :
  KeyVaultSetup w env s (Returned tt) f ->
  credential (this s) = Obj c ->
  match env_get env "AZURE_KEY_VAULT_URI" with
  | Some uri =>
      secretClient f = Obj (mkSecretClient uri c) /\
      certificateClient f = Obj (mkCertificateClient uri c)
  | None =>
      secretClient f = secretClient (this s) /\
      certificateClient f = certificateClient (this s)
  end.
Proof.
  intros H Hc. inversion H as [Hskip|uri c' Hu Hc'| |]; subst.
  - destruct Hskip as [Hu|Hn]; [|rewrite Hc in Hn; discriminate Hn].
    rewrite Hu. split; reflexivity.
  - rewrite Hc in Hc'. injection Hc' as <-. rewrite Hu. split; reflexivity.
Qed.

Lemma GraphSetup_keeps (env : Env) (s : Sys) (o : Outcome unit) (f : Factory) :
  GraphSetup env s o f ->
  credential f = credential (this s) /\
  resolution_state f = resolution_state (this s) /\
  secretClient f = secretClient (this s) /\
  certificateClient f = certificateClient (this s).
Proof. destruct 1; repeat split; reflexivity. Qed.

Lemma GraphSetup_returned (env : Env) (s : Sys) (f : Factory) (c : Credential) :
  GraphSetup env s (Returned tt) f ->
  credential (this s) = Obj c ->
  graphClient f = Obj (mkGraphClient c (graph_scopes env)).
Proof.
  intros H Hc. inversion H as [|c' Hc'|]; subst.
  rewrite Hc in Hc'. injection Hc' as <-. reflexivity.
Qed.

Lemma GraphSetup_thrown (env : Env) (s : Sys) (e : JsError) (f : Factory) :
  GraphSetup env s (Thrown e) f -> f = this s.
Proof. intros H. inversion H; reflexivity. Qed.

Lemma three_steps_spec (w : World) (env : Env) (s : Sys) :
  post w alone (three_steps env) s
    (fun o s' =>
       exists d, trace s' = trace s ++ d /\ ThreeSteps env s d (this s') o).
Proof.
  unfold three_steps.
  step. step.
  eapply post_mono; [apply setupCredentials_pass|].
  intros [[]|e|] s1 H1; cbn [pass_post] in H1; [| |contradiction].
  2:{ destruct H1 as (d & Y & Ht & _ & _ & _ & Hfail & _ & _ & _ & _ & Hsame & Hcred).
      cbn beta iota. exists d. split; [exact Ht|].
      apply PassThrew; assumption. }
  destruct H1 as (d & Y & c & earlier & Ht & _ & _ & _ & Htests & _ & _ & Hthis & _).
  cbn beta iota. step. step.
  eapply post_mono; [apply setupKeyVaultClients_spec|].
  intros o2 s2 (H2 & _ & _ & _ & _ & d2 & Ht2 & Htests2 & _).
  cbn [trace yielded this] in Ht2.
  assert (Hc1 : credential (this (yielded s1)) = Obj c) by (cbn; rewrite Hthis; reflexivity).
  destruct (KeyVaultSetup_keeps _ _ _ _ _ H2) as (Hc2 & Hr2 & Hg2).
  cbn [this yielded] in Hc2, Hr2, Hg2. rewrite Hthis in Hc2, Hr2, Hg2.
  cbn [credential set_credential graphClient] in Hc2, Hg2.
  change (resolution_state (set_credential (Obj c) (this s)))
    with (resolution_state (this s)) in Hr2.
  assert (Hlast2 : last (tests (d ++ d2)) = Some (c, default_scope, true)).
  { rewrite tests_app, Htests, Htests2, app_nil_r. apply last_snoc. }
  destruct o2 as [[]|e|]; [| |inversion H2].
  2:{ cbn beta iota. exists (d ++ d2).
      split; [cbn [trace yielded]; rewrite Ht2, Ht, app_assoc; reflexivity|].
      cbn [this yielded]. apply (LaterStepThrew env s _ _ c e); assumption. }
  pose proof (KeyVaultSetup_returned _ _ _ _ c H2 Hc1) as Hv2.
  cbn [this yielded] in Hv2. rewrite Hthis in Hv2.
  cbn [secretClient certificateClient set_credential] in Hv2.
  cbn beta iota. step.
  eapply post_mono; [apply setupGraphClient_spec|].
  intros o3 s3 (H3 & _ & _ & _ & _ & d3 & Ht3 & Htests3 & _).
  cbn [trace yielded this] in Ht3.
  assert (Hlast : last (tests ((d ++ d2) ++ d3)) = Some (c, default_scope, true)).
  { rewrite tests_app, Htests3, app_nil_r. exact Hlast2. }
  assert (Htr : trace s3 = trace s ++ (d ++ d2) ++ d3).
  { rewrite Ht3, Ht2, Ht, !app_assoc. reflexivity. }
  destruct (GraphSetup_keeps _ _ _ _ H3) as (Hc3 & Hr3 & Hs3 & Hk3).
  cbn [this yielded] in Hc3, Hr3, Hs3, Hk3.
  destruct o3 as [[]|e|]; [| |inversion H3];
    (exists ((d ++ d2) ++ d3); split; [exact Htr|]); cbn [this yielded].
  - apply (StepsDone env s _ _ c); [|congruence|exact Hlast].
    split; [congruence|].
    split; [apply (GraphSetup_returned _ _ _ _ H3); exact Hc2|].
    destruct (env_get env "AZURE_KEY_VAULT_URI"); destruct Hv2; split; congruence.
  - apply GraphSetup_thrown in H3. cbn [this yielded] in H3.
    apply (LaterStepThrew env s _ _ c e); congruence.
Qed.

Lemma exec_three_steps_then {A : Type} (w : World) (bg : Interference) (env : Env)
    (k : Prog A) (s : Sys) :
  exec w bg (await_method (setupCredentials env) ;;
             await_method (setupKeyVaultClients env) ;;
             await_method (setupGraphClient env) ;;
             k) s
  = exec w bg (three_steps env ;; k) s.
Proof.
  unfold three_steps. rewrite !exec_bind.
  destruct (exec w bg (await_method (setupCredentials env)) s) as [[[]|e|] s1];
    [|reflexivity|reflexivity].
  rewrite !exec_bind.
  destruct (exec w bg (await_method (setupKeyVaultClients env)) s1) as [[[]|e|] s2];
    [|reflexivity|reflexivity].
  rewrite !exec_bind.
  destruct (exec w bg (await_method (setupGraphClient env)) s2) as [[[]|e|] s3]; reflexivity.
Qed.

Lemma post_three_steps_then {A : Type} (w : World) (env : Env) (k : Prog A) (s : Sys)
    (Q : Outcome A -> Sys -> Prop) :
  post w alone (three_steps env) s
    (fun o s' =>
       match o with
       | Returned _ => post w alone k s' Q
       | Thrown e => Q (Thrown e) s'
       | Diverged => Q Diverged s'
       end) ->
  post w alone (await_method (setupCredentials env) ;;
                await_method (setupKeyVaultClients env) ;;
                await_method (setupGraphClient env) ;;
                k) s Q.
Proof.
  intros H. unfold post. rewrite exec_three_steps_then.
  apply post_bind. exact H.
Qed.

(** A resolution that failed: the pass found no credential, or it
    committed one and the building of a sub-client threw. *)
Definition failed_with (d : list Event) (f : Factory) (e : JsError) : Prop :=
  initializationError f = Obj e /\ isInitialized f = Obj false /\
  (all_failed (tests d) \/
   exists c, credential f = Obj c /\ last (tests d) = Some (c, default_scope, true)).

Lemma initializeAsync_spec (w : World) (env : Env) (s : Sys) :
  post w alone (initializeAsync env) s
    (fun o s' =>
       o = Returned tt /\
       exists d,
         trace s' = trace s ++ d /\
         ((exists c, clients_on env (this s) (this s') c /\
                     isInitialized (this s') = Obj true /\
                     initializationError (this s') = initializationError (this s) /\
                     last (tests d) = Some (c, default_scope, true))
          \/ exists e, failed_with d (this s') e)).
Proof.
  unfold initializeAsync, initialize.
  do 4 step. apply post_three_steps_then.
  eapply post_mono; [apply three_steps_spec|].
  intros o s1 (d & Ht & H). destruct H as [c Hcl Hres Hlast|e Hsame Hfail Hcred|c e Hc Hres Hlast Hg].
  - repeat step. split; [reflexivity|].
    eexists. split; [cbn [trace]; rewrite Ht, <- ?app_assoc; reflexivity|].
    left. exists c. unfold resolution_state in Hres. injection Hres as He Hi.
    destruct Hcl as (Hc & Hg & Hv).
    split; [split; [exact Hc|split; [exact Hg|exact Hv]]|].
    split; [reflexivity|]. split; [exact He|].
    rewrite tests_app. cbn. rewrite app_nil_r. exact Hlast.
  - repeat step. split; [reflexivity|].
    eexists. split; [cbn [trace]; rewrite Ht, <- ?app_assoc; reflexivity|].
    right. exists e. split; [reflexivity|]. split; [reflexivity|].
    left. unfold all_failed. rewrite tests_app. cbn. rewrite app_nil_r. exact Hfail.
  - repeat step. split; [reflexivity|].
    eexists. split; [cbn [trace]; rewrite Ht, <- ?app_assoc; reflexivity|].
    right. exists e. split; [reflexivity|]. split; [reflexivity|].
    right. exists c. split; [exact Hc|].
    rewrite tests_app. cbn. rewrite app_nil_r. exact Hlast.
Qed.

(** ** The remaining methods of the class *)

(** [this.credential !== null && this.isInitialized]: [false] on a null
    credential, the value of [isInitialized] otherwise. *)
Definition isCredentialAvailable : Prog (JsVal bool) :=
  this <- get_this ;;
  Ret (match credential this with
       | Null => Obj false
       | _ => isInitialized this
       end).

Definition teams_meeting_scope : string :=
  "https://graph.microsoft.com/OnlineMeetings.ReadWrite".
Definition calling_scope : string :=
  "https://graph.microsoft.com/Calls.AccessMedia.All".

Definition getTeamsMeetingToken (env : Env) (fuel : nat) : Prog string :=
  try_catch
    (await_method (getAccessToken env fuel (Some (ScopeArray [teams_meeting_scope]))))
    (fun error => log LError "Failed to get Teams meeting token" ;; Raise error).

Definition getCallingToken (env : Env) (fuel : nat) : Prog string :=
  try_catch
    (await_method (getAccessToken env fuel (Some (ScopeArray [calling_scope]))))
    (fun error => log LError "Failed to get calling token" ;; Raise error).

(** [x.id] on a value that is no object. *)
Definition cannot_read_id (what : string) : JsError :=
  TypeError ("Cannot read properties of " +:+ what +:+ " (reading 'id')").

(** [createTeamsMeeting(meetingDetails)].  The request
    [graphClient.api('/me/onlineMeetings').post(meetingDetails)] is a call of
    the Graph library on the client; it is the argument [post_meeting], and
    the method awaits it.  What it resolves to is any JavaScript value: the
    entry of the log reads [onlineMeeting.id], which throws on [null] and on
    [undefined]. *)
Definition createTeamsMeeting {M : Type} (post_meeting : GraphClient -> Prog (JsVal M))
  : Prog (JsVal M) :=
  try_catch
    (graphClient <- getGraphClient ;;
     onlineMeeting <- await_method (post_meeting graphClient) ;;
     match onlineMeeting with
     | Obj _ => log LInfo "Teams meeting created" ;; Ret onlineMeeting
     | Null => Raise (cannot_read_id "null")
     | Undefined => Raise (cannot_read_id "undefined")
     end)
    (fun error => log LError "Failed to create Teams meeting" ;; Raise error).

(** ** The sub-clients: what a caller can rely on *)


(** X2.  [setupGraphClient] reaches no suspend point.  With no credential
    it throws [Credential not initialized] and calls nothing.  With one, the
    Graph client it stores is built on that credential and on the scopes of
    [GRAPH_SCOPES], or on the default scope when the variable is not set; when
    the library throws, the object is as before. *)
Theorem setupGraphClient_outcome (w : World) (bg : Interference) (env : Env) (s : Sys) :
  post w bg (setupGraphClient env) s
    (fun o s' =>
       GraphSetup env s o (this s') /\
       yields s' = yields s /\
       (truthy (credential (this s)) = false ->
        o = Thrown (Error "Credential not initialized") /\
        trace s' = trace s ++ [ELog LError "Failed to setup Microsoft Graph client"]) /\
       (env_get env "GRAPH_SCOPES" = None ->
        forall c, credential (this s) = Obj c -> o = Returned tt ->
        graphClient (this s') = Obj (mkGraphClient c [default_scope])) /\
       o <> Diverged).
Proof.
  unfold setupGraphClient.
  repeat step.
  all: (split; [|split; [reflexivity|split; [|split; [|discriminate]]]]).
  all: try first [ eapply GraphClientBuilt; eassumption
                 | eapply GraphLibraryThrows; eassumption
                 | apply GraphNoCredential;
                   match goal with H : credential _ = _ |- _ => rewrite H; reflexivity end ].
  all: try (intros Hn; first [discriminate Hn | split; reflexivity]).
  all: intros Hs c Hc Ho;
    first [ discriminate Ho | discriminate Hc
          | injection Hc as ->; unfold graph_scopes; rewrite Hs; reflexivity ].
Qed.

(** ** The object after its construction *)

(** The object as the constructor leaves it before the initialization. *)
Definition cleared : Factory := mkFactory Null Null Null Null Null (Obj false).

Lemma gate_open (w : World) (bg : Interference) (env : Env) (s : Sys) (fuel : nat) :
  env_is env "NODE_ENV" "test" = false ->
  succeeded (this s) ->
  exec w bg (ensureCredentialAvailable env fuel) s = (Returned tt, s).
Proof.
  intros Henv (Hi & He & Hc). unfold ensureCredentialAvailable. rewrite Henv.
  apply post_exec. apply post_bind, post_get_this. rewrite Hi, He. cbn [truthy_bool negb andb].
  apply post_bind, post_ret, post_bind, post_get_this. rewrite He, Hc. cbn [negb].
  apply post_ret. reflexivity.
Qed.

Lemma gate_closed (w : World) (bg : Interference) (env : Env) (s : Sys) (fuel : nat)
    (e0 : JsError) :
  env_is env "NODE_ENV" "test" = false ->
  initializationError (this s) = Obj e0 ->
  exec w bg (ensureCredentialAvailable env fuel) s = (Thrown (gate_error e0), s).
Proof.
  intros Henv He. unfold ensureCredentialAvailable. rewrite Henv.
  apply post_exec. apply post_bind, post_get_this. rewrite He. cbn [truthy].
  rewrite andb_false_r.
  apply post_bind, post_ret, post_bind, post_get_this. rewrite He.
  apply post_raise. reflexivity.
Qed.

Lemma constructor_spec (w : World) (env : Env) (s : Sys) :
  env_is env "NODE_ENV" "test" = false ->
  post w alone (constructor env) (with_this blank s)
    (fun o s' =>
       o = Returned tt /\
       exists d,
         trace s' = trace s ++ d /\
         ((exists c, clients_on env cleared (this s') c /\
                     isInitialized (this s') = Obj true /\
                     initializationError (this s') = Null /\
                     last (tests d) = Some (c, default_scope, true))
          \/ exists e, failed_with d (this s') e)).
Proof.
  intros Henv. unfold constructor. rewrite Henv.
  do 12 step.
  eapply post_mono; [apply initializeAsync_spec|].
  intros o s' H. exact H.
Qed.

(** X3.  Outside the test environment, the construction and the
    initialization it starts end, with no other task writing, in one of two
    states.  Either [isInitialized] is true, no error is stored, the
    credential is one that passed its liveness test, and the Graph client and
    (where a vault URI is configured) the two vault clients are built on that
    very credential; without a vault URI the vault clients are [null].  Or
    [isInitialized] is false and an error is stored: every liveness test
    failed, or a credential passed and is still in place while the building
    of a sub-client threw. *)
Theorem construction_outcome (w : World) (env : Env) (s : Sys) :
  env_is env "NODE_ENV" "test" = false ->
  post w alone (constructor env) (with_this blank s)
    (fun o s' =>
       o = Returned tt /\
       exists d,
         trace s' = trace s ++ d /\
         ((succeeded (this s') /\
           exists c,
             credential (this s') = Obj c /\
             last (tests d) = Some (c, default_scope, true) /\
             graphClient (this s') = Obj (mkGraphClient c (graph_scopes env)) /\
             match env_get env "AZURE_KEY_VAULT_URI" with
             | Some uri =>
                 secretClient (this s') = Obj (mkSecretClient uri c) /\
                 certificateClient (this s') = Obj (mkCertificateClient uri c)
             | None =>
                 secretClient (this s') = Null /\ certificateClient (this s') = Null
             end)
          \/ (isInitialized (this s') = Obj false /\
              exists e,
                initializationError (this s') = Obj e /\
                (all_failed (tests d) \/
                 exists c, credential (this s') = Obj c /\
                           last (tests d) = Some (c, default_scope, true))))).
Proof.
  intros Henv.
  eapply post_mono; [apply constructor_spec; exact Henv|].
  intros o s' (Ho & d & Ht & H). split; [exact Ho|]. exists d. split; [exact Ht|].
  destruct H as [(c & (Hc & Hg & Hv) & Hi & He & Hl)|(e & He & Hi & Hd)].
  - left. split; [split; [exact Hi|split; [exact He|rewrite Hc; reflexivity]]|].
    exists c. repeat (split; [assumption|]). exact Hv.
  - right. split; [exact Hi|]. exists e. split; assumption.
Qed.

Lemma construction_outcome_witness :
  succeeded (this (snd (exec calm_world alone (constructor vault_env)
                          (with_this blank fresh))))
  \/ isInitialized (this (snd (exec calm_world alone (constructor vault_env)
                                 (with_this blank fresh)))) = Obj false.
Proof.
  pose proof (construction_outcome calm_world vault_env fresh eq_refl) as H.
  unfold post in H. destruct H as (_ & d & _ & [(H & _)|(H & _)]).
  - left. exact H.
  - right. exact H.
Defined.

Example construction_with_vault :
  this (snd (exec calm_world alone (constructor vault_env) (with_this blank fresh)))
  = mkFactory (Obj DefaultAzureCredential)
      (Obj (mkSecretClient "https://vault.example" DefaultAzureCredential))
      (Obj (mkCertificateClient "https://vault.example" DefaultAzureCredential))
      (Obj (mkGraphClient DefaultAzureCredential [default_scope]))
      Null (Obj true).
Proof. vm_compute. reflexivity. Qed.

(** X4.  Once the construction and the initialization are over (outside
    the test environment, no other task writing), the synchronous helpers
    say what the gate does: either [isCredentialAvailable] returns true,
    [hasInitializationError] returns false and the gate lets the caller
    through at once; or [isCredentialAvailable] returns false,
    [hasInitializationError] returns true, and the gate throws at once with
    the message of the error that [getInitializationError] returns. *)
Theorem helpers_agree_with_gate (w : World) (bg : Interference) (env : Env) (s : Sys)
    (fuel : nat) :
  env_is env "NODE_ENV" "test" = false ->
  let s' := snd (exec w alone (constructor env) (with_this blank s)) in
  (exec w bg isCredentialAvailable s' = (Returned (Obj true), s') /\
   exec w bg hasInitializationError s' = (Returned false, s') /\
   exec w bg (ensureCredentialAvailable env fuel) s' = (Returned tt, s'))
  \/
  (exists e : JsError,
     exec w bg isCredentialAvailable s' = (Returned (Obj false), s') /\
     exec w bg hasInitializationError s' = (Returned true, s') /\
     exec w bg getInitializationError s' = (Returned (Obj e), s') /\
     exec w bg (ensureCredentialAvailable env fuel) s' = (Thrown (gate_error e), s')).
Proof.
  intros Henv s'.
  pose proof (constructor_spec w env s Henv) as H. unfold post in H. fold s' in H.
  destruct H as (_ & d & _ & [(c & (Hc & _) & Hi & He & _)|(e & He & Hi & _)]).
  - left. split; [|split].
    + cbn. rewrite Hc, Hi. reflexivity.
    + cbn. rewrite He. reflexivity.
    + apply gate_open; [exact Henv|].
      split; [exact Hi|split; [exact He|rewrite Hc; reflexivity]].
  - right. exists e. split; [|split; [|split]].
    + cbn. rewrite Hi. destruct (credential (this s')); reflexivity.
    + cbn. rewrite He. reflexivity.
    + cbn. rewrite He. reflexivity.
    + apply gate_closed; assumption.
Qed.

Lemma helpers_agree_with_gate_witness :
  exec hostile_world alone isCredentialAvailable
       (snd (exec hostile_world alone (constructor azure_env) (with_this blank fresh)))
  = (Returned (Obj false),
     snd (exec hostile_world alone (constructor azure_env) (with_this blank fresh))).
Proof.
  destruct (helpers_agree_with_gate hostile_world alone azure_env fresh 0 eq_refl)
    as [(H & _)|(e & H & _)].
  - vm_compute in H. discriminate H.
  - exact H.
Defined.

(** X5.  In the test environment the constructor assigns no field, and
    the helpers read [undefined]: [hasInitializationError] returns true although
    nothing failed and [getInitializationError] returns [undefined];
    [isCredentialAvailable] returns [undefined] and not a boolean;
    [getCredential] and [getGraphClient] throw, and the health status reports
    every part as not initialized. *)
Theorem test_environment_helpers (w : World) (bg : Interference) (env : Env) (s : Sys) :
  env !! "NODE_ENV" = Some "test" ->
  let s' := snd (construct w env s) in
  exec w bg hasInitializationError s' = (Returned true, s')
  /\ exec w bg getInitializationError s' = (Returned Undefined, s')
  /\ exec w bg isCredentialAvailable s' = (Returned Undefined, s')
  /\ exec w bg getCredential s' = (Thrown (Error "Credential not initialized"), s')
  /\ exec w bg getGraphClient s' = (Thrown graph_client_missing, s')
  /\ (forall h, fst (exec w bg (getHealthStatus env) s') = Returned h ->
      hs_credential h = "not initialized" /\ hs_secretClient h = "not initialized" /\
      hs_certificateClient h = "not initialized" /\ hs_graphClient h = "not initialized").
Proof.
  intros Henv s'. apply env_is_true in Henv.
  assert (Hs : this s' = blank).
  { unfold s', construct, constructor. rewrite Henv. reflexivity. }
  repeat split; try (cbn; rewrite Hs; reflexivity);
    cbn in H; rewrite Hs in H; injection H as <-; reflexivity.
Qed.

Lemma test_environment_helpers_witness :
  exec calm_world alone hasInitializationError (snd (construct calm_world test_env fresh))
  = (Returned true, snd (construct calm_world test_env fresh)).
Proof.
  destruct (test_environment_helpers calm_world alone test_env fresh eq_refl) as (H & _).
  exact H.
Defined.

(** X6.  Outside the test environment, with the managed identity
    configured and its constructor returning, [new CredentialFactory()]
    returns while the initialization is suspended in the liveness test of the
    managed identity: the resolution is pending and the candidate is
    already in [this.credential].  [getCredential] hands it out,
    [isCredentialAvailable] returns false, and the gate would wait. *)
Theorem constructor_exposes_untested_candidate (w : World) (env : Env) (s : Sys) :
  env_is env "NODE_ENV" "test" = false ->
  managed_identity_configured env = true ->
  new_credential_error w (trace s) ManagedIdentityCredential = None ->
  exists (k : Res (option AccessToken) -> Prog unit) (s1 : Sys),
    construct w env s = (Suspended (GetToken ManagedIdentityCredential default_scope) k, s1)
    /\ this s1 = set_credential (Obj ManagedIdentityCredential) cleared
    /\ trace s1 = trace s ++ [ESync (NewCredential ManagedIdentityCredential) (Ok tt)]
    /\ pending (this s1) = true
    /\ run_sync w getCredential s1 = (Done (Returned ManagedIdentityCredential), s1)
    /\ run_sync w isCredentialAvailable s1 = (Done (Returned (Obj false)), s1).
Proof.
  intros Henv Hmi Hctor.
  unfold construct, constructor, initializeAsync, initialize, setupCredentials,
    attemptManagedIdentity.
  rewrite Henv, Hmi. cbn. rewrite Hctor. cbn.
  eexists. eexists. split; [reflexivity|]. repeat split.
Qed.

Lemma constructor_exposes_untested_candidate_witness :
  exists (k : Res (option AccessToken) -> Prog unit) (s1 : Sys),
    construct hostile_world azure_env fresh
    = (Suspended (GetToken ManagedIdentityCredential default_scope) k, s1)
    /\ run_sync hostile_world getCredential s1
       = (Done (Returned ManagedIdentityCredential), s1).
Proof.
  destruct (constructor_exposes_untested_candidate hostile_world azure_env fresh
              eq_refl eq_refl eq_refl)
    as (k & s1 & H1 & _ & _ & _ & H2 & _).
  exists k, s1. split; assumption.
Defined.

(** ** The last attempt and the liveness test *)

(** X7.  The handler of the last attempt of [setupCredentials] does not
    clear [this.credential].  When the default credential is constructed and
    fails its liveness test, the attempt adds its entry to the log and throws
    the aggregate error with the failed credential still in place; when its
    constructor throws, the object is as before the attempt.  When the test
    passes, the credential is committed and nothing is logged as
    failed. *)
Theorem last_attempt_keeps_credential (w : World) (s : Sys) :
  post w alone attemptDefault s
    (fun o s' =>
       exists d,
         trace s' = trace s ++ d /\
         match o with
         | Returned _ =>
             this s' = set_credential (Obj DefaultAzureCredential) (this s) /\
             credentialAttempts s' = credentialAttempts s /\
             tests d = [(DefaultAzureCredential, default_scope, true)]
         | Thrown e =>
             (exists msg,
                credentialAttempts s'
                = credentialAttempts s ++ [mkAttempt "DefaultAzureCredential" msg]) /\
             e = Error ("All authentication methods failed. Attempts: "
                        +:+ stringify_attempts (credentialAttempts s')) /\
             ((constructions d = [(DefaultAzureCredential, false)] /\ tests d = [] /\
               this s' = this s)
              \/ (constructions d = [(DefaultAzureCredential, true)] /\
                  tests d = [(DefaultAzureCredential, default_scope, false)] /\
                  this s' = set_credential (Obj DefaultAzureCredential) (this s)))
         | Diverged => False
         end).
Proof.
  unfold attemptDefault, testCredential.
  repeat step;
    (eexists; split; [cbn [trace]; rewrite <- ?app_assoc; reflexivity|]);
    cbn [tests constructions flat_map test_of construction_of app got_token];
    repeat match goal with
           | H : fst (handle_async _ _ _) = _ |- _ => cbn in H; rewrite H
           end;
    cbn [got_token];
    repeat match goal with H : token_received _ = _ |- _ => rewrite H end.
  all: try (split; [reflexivity|split; reflexivity]).
  all: split; [eexists; reflexivity|split; [reflexivity|]].
  all: first [ left; repeat split; reflexivity | right; repeat split; reflexivity ].
Qed.

Example failed_credential_stays :
  let s' := snd (exec hostile_world alone (constructor bare_env) (with_this blank fresh)) in
  credential (this s') = Obj DefaultAzureCredential /\
  isInitialized (this s') = Obj false /\
  fst (exec hostile_world alone getCredential s') = Returned DefaultAzureCredential /\
  hs_credential (health_of bare_env (this s')) = "initialized".
Proof. cbv zeta. repeat split; vm_compute; reflexivity. Qed.

(** X8.  [testCredential] asks one token, for the default scope, of the
    credential in place, and returns true exactly when a response with a
    token that is not empty comes back; it throws [No token received from
    credential] on an empty response and rethrows what [getToken] throws.
    With no credential in place it throws [No credential available to test]
    and asks nothing.  It never writes the object. *)
Theorem testCredential_outcome (w : World) (s : Sys) :
  post w alone testCredential s
    (fun o s' =>
       this s' = this s /\ credentialAttempts s' = credentialAttempts s /\
       exists d,
         trace s' = trace s ++ d /\
         match credential (this s) with
         | Obj c =>
             tests d = [(c, default_scope, got_token (get_token w (trace s) c default_scope))] /\
             o = match get_token w (trace s) c default_scope with
                 | Ok r =>
                     if token_received r then Returned true
                     else Thrown (Error "No token received from credential")
                 | Err e => Thrown e
                 end
         | _ =>
             tests d = [] /\ o = Thrown (Error "No credential available to test")
         end).
Proof.
  unfold testCredential.
  repeat step;
    (split; [reflexivity|split; [reflexivity|]]);
    (eexists; split; [cbn [trace]; rewrite <- ?app_assoc; reflexivity|]);
    cbn [tests flat_map test_of app];
    repeat match goal with H : get_token _ _ _ _ = _ |- _ => rewrite H end;
    cbn [got_token];
    repeat match goal with H : token_received _ = _ |- _ => rewrite H end;
    split; reflexivity.
Qed.

(** ** Requests to the vault *)

Inductive VaultRequest : Type :=
| CertificateRequested (cl : CertificateClient) (name : string) (answered : bool)
| SecretRequested (cl : SecretClient) (name : string) (answered : bool)
| SecretWritten (cl : SecretClient) (name value : string) (answered : bool).

Definition answered_of {A : Type} (r : Res A) : bool :=
  match r with Ok _ => true | Err _ => false end.

(** The requests to the vault in a history, in order. *)
Definition vault_request_of (e : Event) : list VaultRequest :=
  match e with
  | EAwait c x =>
      match c in AsyncCall X return X -> list VaultRequest with
      | KvGetCertificate cl n => fun r => [CertificateRequested cl n (answered_of r)]
      | KvGetSecret cl n => fun r => [SecretRequested cl n (answered_of r)]
      | KvSetSecret cl n v => fun r => [SecretWritten cl n v (answered_of r)]
      | _ => fun _ => []
      end x
  | _ => []
  end.
Definition vault_requests (tr : list Event) : list VaultRequest :=
  flat_map vault_request_of tr.

(** X9.  [getCertificateFromKeyVault] works with clients of its own, built
    on a fresh [DefaultAzureCredential] and never on [this.credential]; it
    asks the certificate first and its secret only once the certificate
    came back; it asks no token and writes nothing to the object.  What it
    returns is the value of the secret, the password of
    [AZURE_KEY_VAULT_CERTIFICATE_PASSWORD] or the empty string, and the format
    [pkcs12]. *)
Theorem getCertificateFromKeyVault_requests (w : World) (env : Env) (uri name : string)
    (s : Sys) :
  post w alone (getCertificateFromKeyVault env uri name) s
    (fun o s' =>
       this s' = this s /\ credentialAttempts s' = credentialAttempts s /\
       exists d,
         trace s' = trace s ++ d /\ tests d = [] /\
         let certs := mkCertificateClient uri DefaultAzureCredential in
         let secrets := mkSecretClient uri DefaultAzureCredential in
         match o with
         | Returned info =>
             vault_requests d = [CertificateRequested certs name true;
                                 SecretRequested secrets name true] /\
             format info = "pkcs12" /\
             password info
             = default EmptyString (env_get env "AZURE_KEY_VAULT_CERTIFICATE_PASSWORD") /\
             exists tr, kv_get_secret w tr secrets name = Ok (mkSecret (certificate info))
         | Thrown e =>
             vault_requests d = [] \/
             vault_requests d = [CertificateRequested certs name false] \/
             vault_requests d = [CertificateRequested certs name true] \/
             vault_requests d = [CertificateRequested certs name true;
                                 SecretRequested secrets name false]
         | Diverged => False
         end).
Proof.
  unfold getCertificateFromKeyVault.
  repeat step;
    (split; [reflexivity|split; [reflexivity|]]);
    (eexists; split; [cbn [trace]; rewrite <- ?app_assoc; reflexivity|]);
    (split; [reflexivity|]); cbv zeta;
    cbn [vault_requests flat_map vault_request_of app answered_of].
  all: try (split; [reflexivity|split; [reflexivity|split; [reflexivity|]]]).
  all: try (match goal with
            | H : kv_get_secret _ ?tr _ _ = Ok ?a |- _ =>
                exists tr; rewrite H; destruct a; reflexivity
            end).
  all: first [ left; reflexivity | right; left; reflexivity
             | right; right; left; reflexivity | right; right; right; reflexivity ].
Qed.

(** ** The gated accessors on a healthy object *)

(** X10.  On an object whose resolution has succeeded, outside the test
    environment and with no other task writing, [getAccessToken] asks the
    committed credential for one token, for the scopes joined by single
    spaces (the default scope when none is given), and returns the token of
    the response; an empty response throws [No token received from
    credential] and a failure of [getToken] is rethrown as it is.
    [getSecret] asks the secret client for the secret of that name and returns
    its value; a failure of the vault is rethrown as it is.  Neither writes
    the object. *)
Theorem gated_accessors_on_healthy_object (w : World) (env : Env) (s : Sys) (fuel : nat) :
  env_is env "NODE_ENV" "test" = false ->
  succeeded (this s) ->
  (forall (c : Credential) (scopes : option Scopes),
     credential (this s) = Obj c ->
     post w alone (getAccessToken env fuel scopes) s
       (fun o s' =>
          this s' = this s /\
          (exists d, trace s' = trace s ++ d /\
                     tests d = [(c, scope_string scopes,
                                 got_token (get_token w (trace s) c (scope_string scopes)))]) /\
          o = match get_token w (trace s) c (scope_string scopes) with
              | Ok (Some t) =>
                  if nonempty (token t) then Returned (token t)
                  else Thrown (Error "No token received from credential")
              | Ok None => Thrown (Error "No token received from credential")
              | Err e => Thrown e
              end))
  /\ (forall (cl : SecretClient) (name : string),
        secretClient (this s) = Obj cl ->
        post w alone (getSecret env fuel name) s
          (fun o s' =>
             this s' = this s /\
             (exists d, trace s' = trace s ++ d /\
                        vault_requests d
                        = [SecretRequested cl name
                             (answered_of (kv_get_secret w (trace s) cl name))]) /\
             o = match kv_get_secret w (trace s) cl name with
                 | Ok secret => Returned (value secret)
                 | Err e => Thrown e
                 end))
  /\ scope_string None = default_scope
  /\ (forall a b : string, scope_string (Some (ScopeArray [a; b])) = a +:+ " " +:+ b).
Proof.
  intros Henv (Hi & He & Hc).
  split; [|split; [|split; [reflexivity|reflexivity]]].
  - intros c scopes Hcred.
    unfold getAccessToken, ensureCredentialAvailable. rewrite Henv.
    do 5 step. rewrite Hi, He. cbn [truthy truthy_bool negb andb].
    do 4 step. rewrite He. rewrite Hc. cbn [negb].
    do 3 step. rewrite Hcred.
    repeat step;
      (split; [reflexivity|]);
      (split; [eexists; split; [cbn [trace]; rewrite <- ?app_assoc; reflexivity|]|]);
      cbn [tests flat_map test_of app];
      repeat match goal with H : get_token _ _ _ _ = _ |- _ => rewrite H end;
      cbn [got_token token_received];
      repeat match goal with H : nonempty _ = _ |- _ => rewrite H end;
      reflexivity.
  - intros cl name Hcl.
    unfold getSecret, ensureCredentialAvailable. rewrite Henv.
    do 5 step. rewrite Hi, He. cbn [truthy truthy_bool negb andb].
    do 4 step. rewrite He. rewrite Hc. cbn [negb].
    do 3 step. rewrite Hcl.
    repeat step;
      (split; [reflexivity|]);
      (split; [eexists; split; [cbn [trace]; rewrite <- ?app_assoc; reflexivity|]|]);
      cbn [vault_requests flat_map vault_request_of app];
      repeat match goal with H : kv_get_secret _ _ _ _ = _ |- _ => rewrite H end;
      reflexivity.
Qed.

Lemma gated_accessors_on_healthy_object_witness :
  fst (exec calm_world alone (getAccessToken vault_env 0 None) (settled calm_world vault_env))
  = Returned (token sample_token).
Proof.
  destruct (gated_accessors_on_healthy_object calm_world vault_env
              (settled calm_world vault_env) 0 eq_refl) as (H & _).
  { repeat split; vm_compute; reflexivity. }
  specialize (H DefaultAzureCredential None eq_refl).
  unfold post in H. destruct H as (_ & _ & H). rewrite H. reflexivity.
Defined.

(** ** The token wrappers *)

(** A wrapper that awaits a method, logs its failure and rethrows it. *)
Lemma exec_logged_await {A : Type} (w : World) (p : Prog A) (msg : string) (s : Sys) :
  exec w alone (try_catch (await_method p) (fun error => log LError msg ;; Raise error)) s
  = match exec w alone p s with
    | (Returned a, s1) => (Returned a, yielded s1)
    | (Thrown e, s1) => (Thrown e, record (ELog LError msg) (yielded s1))
    | (Diverged, s1) => (Diverged, s1)
    end.
Proof.
  rewrite exec_try_catch. unfold await_method, attempt.
  rewrite exec_bind, exec_try_catch, exec_bind.
  destruct (exec w alone p s) as [[a|e|] s1]; cbn; destruct s1; reflexivity.
Qed.

(** X11.  [getTeamsMeetingToken] and [getCallingToken] are
    [getAccessToken] on one fixed scope each: they return the token it
    returns and throw the error it throws, unchanged, after one more line in
    the log; they leave the object as it leaves it.  They have no check of
    their own, so they wait, fail and pass the gate exactly as it does. *)
Theorem token_wrappers_forward (w : World) (env : Env) (fuel : nat) (s : Sys) :
  (let r := exec w alone (getAccessToken env fuel (Some (ScopeArray [teams_meeting_scope]))) s in
   let r' := exec w alone (getTeamsMeetingToken env fuel) s in
   fst r' = fst r /\ this (snd r') = this (snd r) /\
   trace (snd r')
   = trace (snd r) ++ match fst r with
                      | Thrown _ => [ELog LError "Failed to get Teams meeting token"]
                      | _ => []
                      end)
  /\
  (let r := exec w alone (getAccessToken env fuel (Some (ScopeArray [calling_scope]))) s in
   let r' := exec w alone (getCallingToken env fuel) s in
   fst r' = fst r /\ this (snd r') = this (snd r) /\
   trace (snd r')
   = trace (snd r) ++ match fst r with
                      | Thrown _ => [ELog LError "Failed to get calling token"]
                      | _ => []
                      end)
  /\ scope_string (Some (ScopeArray [teams_meeting_scope])) = teams_meeting_scope
  /\ scope_string (Some (ScopeArray [calling_scope])) = calling_scope.
Proof.
  split; [|split; [|split; reflexivity]]; cbv zeta.
  - unfold getTeamsMeetingToken. rewrite exec_logged_await.
    destruct (exec w alone (getAccessToken env fuel (Some (ScopeArray [teams_meeting_scope]))) s)
      as [[a|e|] s1]; cbn; rewrite ?app_nil_r; repeat split; reflexivity.
  - unfold getCallingToken. rewrite exec_logged_await.
    destruct (exec w alone (getAccessToken env fuel (Some (ScopeArray [calling_scope]))) s)
      as [[a|e|] s1]; cbn; rewrite ?app_nil_r; repeat split; reflexivity.
Qed.

(** ** Waiting with any timeout *)

(** X12.  [waitForInitialization(timeoutMs)] ends whatever the other tasks
    do, given fuel for [timeoutMs / 100] turns.  It returns only on an object
    whose [isInitialized] is true and that stores no error; it throws the
    stored error itself when there is one; it throws the timeout error only
    when the resolution is still pending [timeoutMs] milliseconds or more
    after the call.  While it waits it only reads the clock and sleeps 100
    milliseconds at a time.  With a timeout of zero or less on a pending
    object it throws the timeout error at once, without sleeping. *)
Theorem waitForInitialization_any_timeout (w : World) (bg : Interference)
    (timeoutMs : Z) (fuel : nat) (s : Sys) :
  enough_fuel fuel timeoutMs ->
  post w bg (waitForInitialization fuel timeoutMs) s
    (fun o s' =>
       exists d,
         trace s' = trace s ++ d /\ forallb polling_event d = true /\
         match o with
         | Returned b =>
             b = true /\
             truthy_bool (isInitialized (this s')) = true /\
             truthy (initializationError (this s')) = false
         | Thrown e =>
             initializationError (this s') = Obj e \/
             (e = timeout_error /\ pending (this s') = true /\
              timeoutMs <= now s' - now s)
         | Diverged => False
         end)
  /\ (timeoutMs <= 0 -> pending (this s) = true ->
      run_sync w (waitForInitialization fuel timeoutMs) s
      = (Done (Thrown timeout_error),
         record (ESync DateNow (now s)) (record (ESync DateNow (now s)) s))).
Proof.
  intros Hfuel. split.
  - unfold waitForInitialization.
    apply post_bind, post_date_now, post_bind.
    eapply post_mono; [apply wait_loop_ends|].
    { cbn [now record]. unfold enough_fuel in Hfuel. lia. }
    intros o s' (-> & d & Y & Ht & Hy & Hd & Hend & _).
    cbn [trace yields now record this] in Ht, Hy.
    apply post_bind, post_get_this.
    assert (Hshape : exists d', trace s' = trace s ++ d' /\ forallb polling_event d' = true).
    { exists (ESync DateNow (now s) :: d).
      split; [rewrite Ht, <- app_assoc; reflexivity|exact Hd]. }
    destruct Hshape as (d' & Ht' & Hd').
    destruct (initializationError (this s')) as [| |e] eqn:He;
      [| |apply post_raise; exists d'; repeat (split; [assumption|]); left; exact He];
      (destruct (negb (truthy_bool (isInitialized (this s')))) eqn:Hi;
       [ apply post_raise; exists d'; repeat (split; [assumption|]);
         right; split; [reflexivity|];
         assert (Hp : pending (this s') = true)
           by (unfold pending; rewrite Hi, He; reflexivity);
         split; [exact Hp|]; destruct Hend as [Hn|Hn]; [congruence|exact Hn]
       | apply post_ret; exists d'; repeat (split; [assumption|]);
         apply negb_false_iff in Hi;
         split; [reflexivity|split; [exact Hi|rewrite He; reflexivity]] ]).
  - intros Hneg Hp. unfold waitForInitialization.
    assert (Hlt : (now s - now s <? timeoutMs) = false) by (apply Z.ltb_ge; lia).
    unfold pending in Hp.
    destruct fuel as [|fuel]; cbn; rewrite Hp; cbn; rewrite Hlt; cbn;
      apply andb_true_iff in Hp; destruct Hp as [Hp1 Hp2];
      destruct (initializationError (this s)); try discriminate Hp2;
      rewrite Hp1; reflexivity.
Qed.

Lemma waitForInitialization_any_timeout_witness :
  run_sync calm_world (waitForInitialization 0 0)
           (snd (construct calm_world azure_env fresh))
  = (Done (Thrown timeout_error),
     record (ESync DateNow (now (snd (construct calm_world azure_env fresh))))
       (record (ESync DateNow (now (snd (construct calm_world azure_env fresh))))
          (snd (construct calm_world azure_env fresh)))).
Proof.
  destruct (waitForInitialization_any_timeout calm_world alone 0 0
              (snd (construct calm_world azure_env fresh))) as (_ & H).
  { unfold enough_fuel. lia. }
  apply H; [lia|reflexivity].
Defined.

(** ** What a refresh leaves *)

Lemma refreshCredentials_spec (w : World) (env : Env) (s : Sys) :
  post w alone (refreshCredentials env) s
    (fun o s' =>
       exists d, trace s' = trace s ++ d /\ ThreeSteps env s d (this s') o).
Proof.
  unfold refreshCredentials.
  do 3 step. apply post_three_steps_then.
  eapply post_mono; [apply three_steps_spec|].
  intros o s1 (d & Ht & H). cbn [trace record] in Ht.
  assert (Hd : tests (ELog LInfo "Refreshing credentials" :: d) = tests d) by reflexivity.
  destruct H as [c Hcl Hres Hlast|e Hsame Hfail Hcred|c e Hc Hres Hlast Hg];
    cbn [this record] in *; repeat step.
  - exists ((ELog LInfo "Refreshing credentials" :: d)
            ++ [ELog LInfo "Credentials refreshed successfully"]).
    split; [cbn [trace]; rewrite Ht, <- !app_assoc; reflexivity|].
    apply (StepsDone _ _ _ _ c); [exact Hcl|exact Hres|].
    rewrite tests_app, Hd. cbn. rewrite app_nil_r. exact Hlast.
  - exists ((ELog LInfo "Refreshing credentials" :: d)
            ++ [ELog LError "Failed to refresh credentials"]).
    split; [cbn [trace]; rewrite Ht, <- !app_assoc; reflexivity|].
    apply PassThrew; [exact Hsame| |exact Hcred].
    unfold all_failed. rewrite tests_app, Hd. cbn. rewrite app_nil_r. exact Hfail.
  - exists ((ELog LInfo "Refreshing credentials" :: d)
            ++ [ELog LError "Failed to refresh credentials"]).
    split; [cbn [trace]; rewrite Ht, <- !app_assoc; reflexivity|].
    apply (LaterStepThrew _ _ _ _ c); [exact Hc|exact Hres| |exact Hg].
    rewrite tests_app, Hd. cbn. rewrite app_nil_r. exact Hlast.
Qed.

(** X13.  A refresh that returns has committed a credential that passed
    its liveness test in this refresh, and has rebuilt on it the Graph client
    and, where a vault URI is configured, the two vault clients; without a
    vault URI the vault clients are those of before the refresh, built on the
    credential of before. *)
Theorem refresh_success_rebuilds_clients (w : World) (env : Env) (s : Sys) :
  post w alone (refreshCredentials env) s
    (fun o s' =>
       o <> Diverged /\
       forall u : unit, o = Returned u ->
         exists c d,
           trace s' = trace s ++ d /\
           last (tests d) = Some (c, default_scope, true) /\
           credential (this s') = Obj c /\
           graphClient (this s') = Obj (mkGraphClient c (graph_scopes env)) /\
           match env_get env "AZURE_KEY_VAULT_URI" with
           | Some uri =>
               secretClient (this s') = Obj (mkSecretClient uri c) /\
               certificateClient (this s') = Obj (mkCertificateClient uri c)
           | None =>
               secretClient (this s') = secretClient (this s) /\
               certificateClient (this s') = certificateClient (this s)
           end).
Proof.
  eapply post_mono; [apply refreshCredentials_spec|].
  intros o s' (d & Ht & H).
  destruct H as [c (Hc & Hg & Hv) Hres Hlast|e Hsame Hfail Hcred|c e Hc Hres Hlast Hg];
    (split; [discriminate|]); intros u Ho; try discriminate Ho.
  exists c, d. repeat (split; [assumption|]). exact Hv.
Qed.

(** X14.  A refresh that throws is not undone and not recorded.  The
    record of the resolution is as before, so a gate that was open stays
    open.  Either every liveness test of the refresh failed, and the
    credential is the one of before, [null], or the default credential that
    just failed, with the sub-clients of before; or a credential passed its
    test and is committed, while the Graph client is still the one of
    before. *)
Theorem refresh_failure_is_not_recorded (w : World) (env : Env) (s : Sys) :
  post w alone (refreshCredentials env) s
    (fun o s' =>
       forall e : JsError, o = Thrown e ->
         resolution_state (this s') = resolution_state (this s) /\
         exists d,
           trace s' = trace s ++ d /\
           ((all_failed (tests d) /\
             same_clients (this s) (this s') /\
             (credential (this s') = credential (this s) \/
              credential (this s') = Null \/
              credential (this s') = Obj DefaultAzureCredential))
            \/ (exists c,
                  credential (this s') = Obj c /\
                  last (tests d) = Some (c, default_scope, true) /\
                  graphClient (this s') = graphClient (this s)))).
Proof.
  eapply post_mono; [apply refreshCredentials_spec|].
  intros o s' (d & Ht & H).
  destruct H as [c Hcl Hres Hlast|e' Hsame Hfail Hcred|c e' Hc Hres Hlast Hg];
    intros e Ho; try discriminate Ho.
  - split; [apply same_clients_resolution_state; exact Hsame|].
    exists d. split; [exact Ht|]. left. repeat split; assumption.
  - split; [exact Hres|].
    exists d. split; [exact Ht|]. right. exists c. repeat split; assumption.
Qed.

(** A healthy object on which a refresh fails: the gate stays open and
    [getAccessToken] asks the credential that has just failed. *)
Definition token_until_refresh (tr : list Event) (_ : Credential) (_ : string)
  : Res (option AccessToken) :=
  if refresh_requested tr then Err (Error "CredentialUnavailableError")
  else Ok (Some sample_token).

Definition failing_world : World :=
  sample_world every_constructor_returns token_until_refresh certificate_found unlink_works.

Example gate_open_after_failed_refresh :
  let s := settled failing_world azure_env in
  let s' := snd (exec failing_world alone (refreshCredentials azure_env) s) in
  credential (this s) = Obj ManagedIdentityCredential /\
  (exists e, fst (exec failing_world alone (refreshCredentials azure_env) s) = Thrown e) /\
  credential (this s') = Obj DefaultAzureCredential /\
  exec failing_world alone (ensureCredentialAvailable azure_env 0) s' = (Returned tt, s') /\
  fst (exec failing_world alone (getAccessToken azure_env 0 None) s')
  = Thrown (Error "CredentialUnavailableError").
Proof.
  cbv zeta. split; [vm_compute; reflexivity|]. split; [eexists; vm_compute; reflexivity|].
  split; [vm_compute; reflexivity|]. split; vm_compute; reflexivity.
Qed.

(** ** Creating a meeting *)

(** X15.  [createTeamsMeeting] does not go through the gate.  With no
    Graph client in place it throws [Microsoft Graph client not initialized]
    at once, after one line in the log, and the request is never made,
    whatever the state of the resolution.  With a client in place it makes
    the request on that client and awaits it.  When the request resolves to
    a value other than [null] and [undefined], the method logs the creation
    and returns that value.  When it resolves to [null] or [undefined], the
    read of [id] throws a [TypeError], which the method logs as a failure
    and rethrows: no creation is logged.  When the request throws, the
    method logs the failure and rethrows what it threw. *)
Theorem createTeamsMeeting_needs_graph_client {M : Type} (w : World) (bg : Interference)
    (post_meeting : GraphClient -> Prog (JsVal M)) (s : Sys) :
  (truthy (graphClient (this s)) = false ->
   run_sync w (createTeamsMeeting post_meeting) s
   = (Done (Thrown graph_client_missing),
      record (ELog LError "Failed to create Teams meeting") s))
  /\ (forall g : GraphClient,
        graphClient (this s) = Obj g ->
        exec w bg (createTeamsMeeting post_meeting) s
        = match exec w bg (post_meeting g) s with
          | (Returned (Obj m), s1) =>
              (Returned (Obj m), record (ELog LInfo "Teams meeting created") (suspend bg s1))
          | (Returned Null, s1) =>
              (Thrown (cannot_read_id "null"),
               record (ELog LError "Failed to create Teams meeting") (suspend bg s1))
          | (Returned Undefined, s1) =>
              (Thrown (cannot_read_id "undefined"),
               record (ELog LError "Failed to create Teams meeting") (suspend bg s1))
          | (Thrown e, s1) =>
              (Thrown e, record (ELog LError "Failed to create Teams meeting") (suspend bg s1))
          | (Diverged, s1) => (Diverged, s1)
          end).
Proof.
  split.
  - intros H. unfold createTeamsMeeting, getGraphClient. cbn.
    destruct (graphClient (this s)); [reflexivity|reflexivity|discriminate H].
  - intros g Hg. unfold createTeamsMeeting, getGraphClient, await_method.
    rewrite exec_try_catch, exec_bind. cbn [exec get_this bind]. rewrite Hg.
    cbn [exec]. unfold attempt.
    rewrite !exec_bind, exec_try_catch, exec_bind.
    destruct (exec w bg (post_meeting g) s) as [[[| |m]|e|] s1]; reflexivity.
Qed.

(** ** The scopes of the Graph client *)

Lemma string_app_empty_r (s : string) : s +:+ EmptyString = s.
Proof.
  induction s as [|a s IH]; [reflexivity|].
  change (String a s +:+ EmptyString) with (String a (s +:+ EmptyString)).
  rewrite IH. reflexivity.
Qed.

Lemma string_app_assoc (a b c : string) : (a +:+ b) +:+ c = a +:+ (b +:+ c).
Proof.
  induction a as [|x a IH]; [reflexivity|].
  change ((String x a +:+ b) +:+ c) with (String x ((a +:+ b) +:+ c)).
  rewrite IH. reflexivity.
Qed.

Lemma split_comma_acc_nonempty (s acc : string) : split_comma_acc acc s <> [].
Proof.
  revert acc. induction s as [|a s IH]; intros acc; cbn; [discriminate|].
  destruct (Nat.eqb (nat_of_ascii a) 44); [discriminate|apply IH].
Qed.

Lemma join_cons (sep x : string) (l : list string) :
  l <> [] -> join sep (x :: l) = x +:+ sep +:+ join sep l.
Proof. destruct l; [congruence|reflexivity]. Qed.

Lemma join_split_comma_acc (s acc : string) :
  join "," (split_comma_acc acc s) = acc +:+ s.
Proof.
  revert acc. induction s as [|a s IH]; intros acc.
  - cbn. symmetry. apply string_app_empty_r.
  - cbn [split_comma_acc]. destruct (Nat.eqb (nat_of_ascii a) 44) eqn:E.
    + apply Nat.eqb_eq in E.
      assert (Ha : a = ascii_of_nat 44) by (rewrite <- E, ascii_nat_embedding; reflexivity).
      subst a.
      rewrite join_cons by apply split_comma_acc_nonempty.
      rewrite IH. reflexivity.
    + rewrite IH, string_app_assoc. reflexivity.
Qed.

(** A string holds a comma. *)
Fixpoint has_comma (s : string) : bool :=
  match s with
  | EmptyString => false
  | String a rest => Nat.eqb (nat_of_ascii a) 44 || has_comma rest
  end.

Lemma has_comma_app (a b : string) : has_comma (a +:+ b) = has_comma a || has_comma b.
Proof.
  induction a as [|x a IH]; [reflexivity|].
  change (has_comma (String x a +:+ b))
    with (Nat.eqb (nat_of_ascii x) 44 || has_comma (a +:+ b)).
  rewrite IH, orb_assoc. reflexivity.
Qed.

Lemma split_comma_acc_no_comma (s acc : string) :
  has_comma acc = false ->
  Forall (fun x => has_comma x = false) (split_comma_acc acc s).
Proof.
  revert acc. induction s as [|a s IH]; intros acc Hacc; cbn.
  - constructor; [exact Hacc|constructor].
  - destruct (Nat.eqb (nat_of_ascii a) 44) eqn:E.
    + constructor; [exact Hacc|]. apply IH. reflexivity.
    + apply IH. rewrite has_comma_app, Hacc. cbn. rewrite E. reflexivity.
Qed.

(** X16.  The scopes of the Graph client are the pieces of [GRAPH_SCOPES]
    between its commas, as they stand: there is at least one, none holds a
    comma, nothing is trimmed or dropped, and joined by commas they give the
    variable back.  When the variable is not set or empty, the only scope is
    the default one. *)
Theorem graph_scopes_round_trip (env : Env) :
  (forall v : string,
     env_get env "GRAPH_SCOPES" = Some v ->
     join "," (graph_scopes env) = v /\
     graph_scopes env <> [] /\
     Forall (fun x => has_comma x = false) (graph_scopes env))
  /\ (env_get env "GRAPH_SCOPES" = None -> graph_scopes env = [default_scope]).
Proof.
  split.
  - intros v Hv. unfold graph_scopes. rewrite Hv. unfold split_comma.
    split; [apply join_split_comma_acc|].
    split; [apply split_comma_acc_nonempty|].
    apply split_comma_acc_no_comma. reflexivity.
  - intros Hn. unfold graph_scopes. rewrite Hn. reflexivity.
Qed.

Definition scoped_env : Env :=
  <["GRAPH_SCOPES" := "User.Read, Calendars.Read,,"]> ∅.

Lemma graph_scopes_round_trip_witness :
  join "," (graph_scopes scoped_env) = "User.Read, Calendars.Read,,"
  /\ graph_scopes scoped_env = ["User.Read"; " Calendars.Read"; EmptyString; EmptyString].
Proof.
  destruct (graph_scopes_round_trip scoped_env) as (H & _).
  destruct (H "User.Read, Calendars.Read,," eq_refl) as (Hj & _).
  split; [exact Hj|reflexivity].
Defined.

(** ** The certificate sub-procedure at its edges *)


(** X18.  The sub-procedure touches one path of the disk at most, that
    of its temporary file: every other file is there afterwards exactly when
    it was there before.  The handler of the third approach removes the file
    of that path whenever it exists, also when this call has not written
    it. *)
Theorem only_the_temporary_path_is_touched (w : World) (s : Sys) (t c : string)
    (info : CertificateInfo) :
  post w alone (tryCreateCertificateCredential t c info) s
    (fun o s' =>
       exists suffix : string,
         forall p : string,
           p <> temp_file_path w (now s) suffix ->
           (p ∈ files s' <-> p ∈ files s)).
Proof.
  unfold tryCreateCertificateCredential, cleanup_after_success, cleanup_after_error.
  repeat step;
    first [ match goal with H : math_random_suffix _ _ = ?x |- _ => exists x end
          | exists EmptyString ];
    unfold temp_file_path;
    repeat match goal with
           | H : os_tmpdir _ = _ |- _ => rewrite H
           | H : math_random_suffix _ _ = _ |- _ => clear H
           | H : path_joined _ _ _ = _ |- _ => rewrite H
           end;
    cbn [files];
    repeat match goal with H : _ = _ |- _ => clear H end;
    clear; set_solver.
Qed.

(** A file that happens to have the name of the temporary file is removed
    by a call that wrote nothing. *)
Example collision_removes_a_file :
  let p := "/tmp/cert-1700000000000-k3j9x0q1z.pfx" in
  let s := with_files {[p]} fresh in
  let s' := snd (exec rejecting_world alone
                   (tryCreateCertificateCredential "tenant" "client"
                      (mkCertificateInfo None EmptyString "pkcs12")) s) in
  written (trace s') = [] /\ bool_decide (p ∈ files s') = false.
Proof. cbv zeta. split; vm_compute; reflexivity. Qed.

(** ** The vault accessors without a gate *)

(** X19.  With their client in place, [setSecret] and [getCertificate]
    make one request each, on that client, with the name (and the value)
    they were given; they return what the vault returns and rethrow what it
    throws, unchanged; they never write the object. *)
Theorem vault_accessors_forward (w : World) (s : Sys) :
  (forall (cl : SecretClient) (name value : string),
     secretClient (this s) = Obj cl ->
     post w alone (setSecret name value) s
       (fun o s' =>
          this s' = this s /\
          (exists d, trace s' = trace s ++ d /\
                     vault_requests d
                     = [SecretWritten cl name value
                          (match kv_set_secret w (trace s) cl name value with
                           | None => true
                           | Some _ => false
                           end)]) /\
          o = match kv_set_secret w (trace s) cl name value with
              | None => Returned tt
              | Some e => Thrown e
              end))
  /\ (forall (cl : CertificateClient) (name : string),
        certificateClient (this s) = Obj cl ->
        post w alone (getCertificate name) s
          (fun o s' =>
             this s' = this s /\
             (exists d, trace s' = trace s ++ d /\
                        vault_requests d
                        = [CertificateRequested cl name
                             (answered_of (kv_get_certificate w (trace s) cl name))]) /\
             o = match kv_get_certificate w (trace s) cl name with
                 | Ok cert => Returned cert
                 | Err e => Thrown e
                 end)).
Proof.
  split.
  - intros cl name value Hcl. unfold setSecret.
    do 3 step. rewrite Hcl.
    repeat step;
      (split; [reflexivity|]);
      (split; [eexists; split; [cbn [trace]; rewrite <- ?app_assoc; reflexivity|]|]);
      cbn [vault_requests flat_map vault_request_of app];
      match goal with
      | H : res_of_error ?x = _ |- _ => destruct x; cbn in H; try discriminate H
      end;
      try match goal with H : Err _ = Err _ |- _ => injection H as <- end;
      reflexivity.
  - intros cl name Hcl. unfold getCertificate.
    do 3 step. rewrite Hcl.
    repeat step;
      (split; [reflexivity|]);
      (split; [eexists; split; [cbn [trace]; rewrite <- ?app_assoc; reflexivity|]|]);
      cbn [vault_requests flat_map vault_request_of app];
      repeat match goal with H : kv_get_certificate _ _ _ _ = _ |- _ => rewrite H end;
      reflexivity.
Qed.

Lemma vault_accessors_forward_witness :
  fst (exec graphless_world alone (setSecret "api-key" "v1")
         (settled graphless_world vault_env)) = Returned tt.
Proof.
  destruct (vault_accessors_forward graphless_world (settled graphless_world vault_env))
    as [H _].
  specialize (H vault_client "api-key" "v1").
  unfold post in H. destruct H as (_ & _ & H); [vm_compute; reflexivity|].
  rewrite H. reflexivity.
Defined.

(** ** Sample runs of the further properties *)

Lemma setupGraphClient_outcome_witness :
  fst (exec calm_world alone (setupGraphClient bare_env) (with_this cleared fresh))
  = Thrown (Error "Credential not initialized").
Proof.
  pose proof (setupGraphClient_outcome calm_world alone bare_env (with_this cleared fresh))
    as H.
  unfold post in H. destruct H as (_ & _ & H & _).
  destruct (H eq_refl) as [Ho _]. exact Ho.
Defined.

Lemma refresh_success_rebuilds_clients_witness :
  exists c : Credential,
    credential (this (snd (exec rotating_world alone (refreshCredentials full_env)
                             (settled rotating_world full_env)))) = Obj c /\
    graphClient (this (snd (exec rotating_world alone (refreshCredentials full_env)
                              (settled rotating_world full_env))))
    = Obj (mkGraphClient c (graph_scopes full_env)) /\
    secretClient (this (snd (exec rotating_world alone (refreshCredentials full_env)
                               (settled rotating_world full_env))))
    = Obj (mkSecretClient "https://vault.example" c).
Proof.
  pose proof (refresh_success_rebuilds_clients rotating_world full_env
                (settled rotating_world full_env)) as H.
  unfold post in H. destruct H as [_ H].
  destruct (H tt) as (c & d & _ & _ & Hc & Hg & Hv); [vm_compute; reflexivity|].
  exists c. split; [exact Hc|]. split; [exact Hg|].
  change (env_get full_env "AZURE_KEY_VAULT_URI") with (Some "https://vault.example") in Hv.
  destruct Hv as [Hs _]. exact Hs.
Defined.

Lemma refresh_failure_is_not_recorded_witness :
  resolution_state (this (snd (exec failing_world alone (refreshCredentials azure_env)
                                 (settled failing_world azure_env))))
  = (Null, Obj true).
Proof.
  pose proof (refresh_failure_is_not_recorded failing_world azure_env
                (settled failing_world azure_env)) as H.
  unfold post in H.
  destruct (H (Error ("All authentication methods failed. Attempts: "
                      +:+ stringify_attempts
                            [mkAttempt "ManagedIdentity" "CredentialUnavailableError";
                             mkAttempt "DefaultAzureCredential" "CredentialUnavailableError"])))
    as [Hr _]; [vm_compute; reflexivity|].
  rewrite Hr. vm_compute. reflexivity.
Defined.

(** A request that resolves to [undefined]: on an object without Graph
    client it is never made; on a healthy object the method throws on the
    read of [id] and logs a failure, not a creation. *)
Lemma createTeamsMeeting_needs_graph_client_witness :
  run_sync hostile_world (createTeamsMeeting (M := unit) (fun _ => Ret Undefined))
           (settled hostile_world azure_env)
  = (Done (Thrown graph_client_missing),
     record (ELog LError "Failed to create Teams meeting") (settled hostile_world azure_env))
  /\ exec calm_world alone (createTeamsMeeting (M := unit) (fun _ => Ret Undefined))
          (settled calm_world vault_env)
     = (Thrown (cannot_read_id "undefined"),
        record (ELog LError "Failed to create Teams meeting")
               (suspend alone (settled calm_world vault_env))).
Proof.
  split.
  - destruct (createTeamsMeeting_needs_graph_client (M := unit) hostile_world alone
                (fun _ => Ret Undefined) (settled hostile_world azure_env)) as [H _].
    apply H. vm_compute. reflexivity.
  - destruct (createTeamsMeeting_needs_graph_client (M := unit) calm_world alone
                (fun _ => Ret Undefined) (settled calm_world vault_env)) as [_ H].
    eapply eq_trans; [eapply H; vm_compute; reflexivity|]. reflexivity.
Defined.
